(** * AOTF controller protocol engine

    A shallow embedding of
    [src/pymodaq_plugins_crystal_technology/hardware/aods_controller.py]
    (class [AOTF]) together with the properties its specification states
    about it.

    Layout:
    - [PyStr]: the Python string and list primitives the class relies on
      ([str.split], [str.lstrip], [str.rstrip], [in], indexing);
    - the vendor driver and the clock as an explicit world state;
    - a state-and-exception monad in which a raised exception keeps the
      state reached so far, as in Python;
    - the methods of [AOTF], one definition per method, same names;
    - the properties. *)

From Stdlib Require Import ZArith String Ascii List Bool Lia DecimalString.
From Stdlib Require Import PrimFloat Uint63 SpecFloat FloatOps.
From stdpp Require Import gmap strings.
Import ListNotations.

Local Open Scope string_scope.
Local Open Scope Z_scope.

(** ** Python strings and lists *)

Module PyStr.

Definition CR : ascii := "013"%char.
Definition LF : ascii := "010"%char.

(** The two-character line terminator ['\r\n']. *)
Definition CRLF : string := String CR (String LF "").

(** [c in chars] for a one-character [c]. *)
Fixpoint mem (c : ascii) (chars : string) : bool :=
  match chars with
  | EmptyString => false
  | String c' rest => Ascii.eqb c c' || mem c rest
  end.

(** [s.lstrip(chars)]: [chars] is a set of characters, not a prefix. *)
Fixpoint lstrip (chars s : string) : string :=
  match s with
  | EmptyString => EmptyString
  | String c s' => if mem c chars then lstrip chars s' else s
  end.

(** [s.rstrip(chars)]. *)
Fixpoint rstrip (chars s : string) : string :=
  match s with
  | EmptyString => EmptyString
  | String c s' =>
      match rstrip chars s' with
      | EmptyString => if mem c chars then EmptyString else String c EmptyString
      | r => String c r
      end
  end.

(** Prepend a character to the first piece of a split. *)
Definition cons_first (c : ascii) (pieces : list string) : list string :=
  match pieces with
  | [] => [String c EmptyString]
  | p :: ps => String c p :: ps
  end.

(** [s.split('\r\n')]: left-to-right, non-overlapping occurrences. *)
Fixpoint split_crlf (s : string) : list string :=
  match s with
  | EmptyString => [EmptyString]
  | String c s' =>
      match s' with
      | String c' s'' =>
          if Ascii.eqb c CR && Ascii.eqb c' LF
          then EmptyString :: split_crlf s''
          else cons_first c (split_crlf s')
      | EmptyString => [String c EmptyString]
      end
  end.

(** [l[i]] with Python's negative indices; [None] stands for
    [IndexError]. *)
Definition getitem {A} (l : list A) (i : Z) : option A :=
  let n := Z.of_nat (List.length l) in
  let j := if i <? 0 then i + n else i in
  if (0 <=? j) && (j <? n) then nth_error l (Z.to_nat j) else None.

(** The f-string [f'{msg}\r']: a command as it is written to the device. *)
Definition with_cr (msg : string) : string := msg ++ String CR "".

(** [str(z)] for an [int]. *)
Definition str_int (z : Z) : string := NilZero.string_of_int (Z.to_int z).

End PyStr.

Import PyStr.

(** ** Exceptions *)

(** The class raises [IOError] and [ValueError] with fixed messages;
    [IndexError] and [KeyError] are what list indexing and dictionary
    lookup would raise, [OverflowError] what int arithmetic raises when a
    result does not fit a float, [UnicodeDecodeError] what [bytes.decode]
    raises on bytes that are not UTF-8. *)
Inductive exn : Type :=
| IOError (msg : string)
| ValueError (msg : string)
| IndexError (msg : string)
| KeyError (key : string)
| OverflowError (msg : string)
| UnicodeDecodeError (reason : string).

(** The specification's error taxonomy, as the raise sites of the class
    spell it. *)
Definition NotOpenError : exn :=
  IOError "The communication with the controller has not been opened, or failed".

Definition TransportWriteError : exn :=
  IOError "The program could not send data to the controller".

(** [_read] raises with the very message [_write] uses. *)
Definition TransportReadError : exn :=
  IOError "The program could not send data to the controller".

Definition DeviceOpenError (controller_index : Z) : exn :=
  IOError ("The AOTF controller with index " ++ str_int controller_index
           ++ " could not be opened").

Definition DeviceCloseError : exn :=
  IOError "The AOTF controller could not be closed".

Definition InvalidChannelError (nchannels : Z) : exn :=
  ValueError ("the requested channel is not a valid integer [0-"
              ++ str_int (nchannels - 1) ++ "]").

(** What numpy's [Polynomial] constructor raises on an empty coefficient
    list. *)
Definition EmptyCoefficientsError : exn :=
  ValueError "Coefficient array is empty".

(** The two ways int arithmetic fails to produce a float. *)
Definition IntTooLargeError : exn :=
  OverflowError "int too large to convert to float".

Definition QuotientTooLargeError : exn :=
  OverflowError "integer division result too large for a float".

(** ** Numbers *)

(** A Python number: an [int] or a [float] (binary64). *)
Inductive pynum : Type :=
| PyInt (z : Z)
| PyFloat (f : float).

(** An int of any size as an exact, unrounded value [m * 2^0]. *)
Definition int_as_spec (z : Z) : spec_float :=
  match z with
  | Z0 => S754_zero false
  | Zpos m => S754_finite false m 0
  | Zneg m => S754_finite true m 0
  end.

(** [float(z)]: the float nearest to the int, ties to even, whatever the
    size of [z]. Where the nearest float would be beyond the largest one
    Python raises [OverflowError] ([int_too_large]); the value here is
    then an infinity. *)
Definition float_of_int (z : Z) : float :=
  SF2Prim (binary_normalize prec emax z 0 false).

Definition int_too_large (z : Z) : bool :=
  PrimFloat.is_infinity (float_of_int z).

(** [a / b] for two ints, [b] non-zero: the exact quotient, rounded once
    (not the quotient of the two rounded operands). *)
Definition int_truediv (a b : Z) : float :=
  SF2Prim (SFdiv prec emax (int_as_spec a) (int_as_spec b)).

Definition to_float (x : pynum) : float :=
  match x with
  | PyInt z => float_of_int z
  | PyFloat f => f
  end.

(** [x * y]: integer product of two ints, of any size; float product
    otherwise, the int operand converted first. *)
Definition py_mul (x y : pynum) : pynum :=
  match x, y with
  | PyInt a, PyInt b => PyInt (a * b)
  | _, _ => PyFloat (PrimFloat.mul (to_float x) (to_float y))
  end.

(** The exception [x * y] raises, if any: an int operand too large to
    meet a float. A float product that overflows is an infinity, no
    exception. *)
Definition py_mul_error (x y : pynum) : option exn :=
  match x, y with
  | PyInt a, PyFloat _ => if int_too_large a then Some IntTooLargeError else None
  | PyFloat _, PyInt b => if int_too_large b then Some IntTooLargeError else None
  | _, _ => None
  end.

(** [x / d] for a non-zero int literal [d]: true division, always a
    float. *)
Definition py_truediv (x : pynum) (d : Z) : pynum :=
  match x with
  | PyInt a => PyFloat (int_truediv a d)
  | PyFloat f => PyFloat (PrimFloat.div f (float_of_int d))
  end.

(** The exception [x / d] raises, if any. *)
Definition py_truediv_error (x : pynum) (d : Z) : option exn :=
  match x with
  | PyInt a =>
      if PrimFloat.is_infinity (int_truediv a d)
      then Some QuotientTooLargeError else None
  | PyFloat _ => if int_too_large d then Some IntTooLargeError else None
  end.

(** How an int compares with a float, on the exact values; [None] when
    the float is NaN. *)
Definition int_vs_float (a : Z) (f : float) : option comparison :=
  match Prim2SF f with
  | S754_nan => None
  | S754_infinity sign => Some (if sign then Gt else Lt)
  | S754_zero _ => Some (a ?= 0)
  | S754_finite sign m e =>
      let v := if sign then Z.neg m else Z.pos m in
      Some (if 0 <=? e then a ?= v * 2 ^ e else a * 2 ^ (- e) ?= v)
  end.

(** [x <= y]. Two ints compare as integers, two floats as floats. An int
    below [2^48] in magnitude meets a float as the float it converts to,
    exactly; a larger one is compared on the exact values. *)
Definition py_le (x y : pynum) : bool :=
  match x, y with
  | PyInt a, PyInt b => a <=? b
  | PyFloat f, PyFloat g => PrimFloat.leb f g
  | PyInt a, PyFloat g =>
      if Z.abs a <? 2 ^ 48 then PrimFloat.leb (float_of_int a) g
      else match int_vs_float a g with
           | Some Lt | Some Eq => true
           | _ => false
           end
  | PyFloat f, PyInt b =>
      if Z.abs b <? 2 ^ 48 then PrimFloat.leb f (float_of_int b)
      else match int_vs_float b f with
           | Some Gt | Some Eq => true
           | _ => false
           end
  end.

(** Whether a number compares with nothing: a float NaN. *)
Definition unordered (x : pynum) : bool :=
  match x with
  | PyInt _ => false
  | PyFloat f => PrimFloat.is_nan f
  end.

(** [portion.closed(lower, upper)] and its [in] test for a value, the
    interval being one of numbers with [lower <= upper]. A number is in
    when [lower <= item <= upper]. An item that no comparison orders, a
    NaN, is not turned away by portion: it is in every such interval. *)
Record interval : Type := closed { lower : pynum; upper : pynum }.

Definition contains (i : interval) (item : pynum) : bool :=
  unordered item || (py_le (lower i) item && py_le item (upper i)).

(** ** The calibration polynomial and the table it is built from *)

(** What the class reads of a [numpy.polynomial.Polynomial]. *)
Record Polynomial : Type := mk_Polynomial {
  coef : list float;
  domain : float * float;
  window : float * float
}.

(** One entry of [calibration.toml]: [coeffs] and [domain]. *)
Record calib_entry : Type := mk_entry {
  coeffs : list float;
  entry_domain : float * float
}.

(** ** The world outside the class: vendor driver, console, clock *)

(** What a poll of the receive side finds: nothing yet; data that the
    next [AotfRead] call delivers and that decodes to the text [data] (at
    most the requested length, by the driver's contract); data whose read
    the driver reports as failed; or data that the next [AotfRead] call
    delivers but that is not UTF-8. *)
Inductive rx_event : Type :=
| Quiet
| Chunk (data : string)
| Fault
| Garbled (reason : string).

(** The bytes [AotfRead] left in the buffer, [buffer.value[:nread.value]],
    by what [decode] makes of them. *)
Inductive received : Type :=
| Text (data : string)
| NotUtf8 (reason : string).

(** Return codes of [AotfLibrary.dll]; [0] is failure throughout. *)
Record driver : Type := mk_driver {
  AotfOpen : Z -> Z;
  AotfClose : Z -> Z;
  AotfGetInstance : Z -> Z;
  AotfWrite : Z -> Z -> string -> Z
}.

(** [rx]: what the device will deliver, in order; [tx]: every buffer handed
    to [AotfWrite]; [stdout]: what [print] wrote; [clock]: the reading of
    [time.perf_counter], in milliseconds. *)
Record world : Type := mk_world {
  dll : driver;
  rx : list rx_event;
  tx : list string;
  stdout : list string;
  clock : Z
}.

(** The attributes [__init__] creates. [_timeout] is in seconds. *)
Record AOTF : Type := mk_AOTF {
  _handle : option Z;
  _nchannels : Z;
  _calibration : option Polynomial;
  calib_ids : list string;
  _timeout : Z;
  _amplitude_int_max : Z
}.

Record sys : Type := mk_sys { env : world; self : AOTF }.

Definition with_rx (l : list rx_event) (w : world) : world :=
  mk_world (dll w) l (tx w) (stdout w) (clock w).

Definition with_tx (l : list string) (w : world) : world :=
  mk_world (dll w) (rx w) l (stdout w) (clock w).

Definition with_stdout (l : list string) (w : world) : world :=
  mk_world (dll w) (rx w) (tx w) l (clock w).

Definition with_clock (t : Z) (w : world) : world :=
  mk_world (dll w) (rx w) (tx w) (stdout w) t.

Definition with_handle (h : option Z) (a : AOTF) : AOTF :=
  mk_AOTF h (_nchannels a) (_calibration a) (calib_ids a) (_timeout a)
          (_amplitude_int_max a).

Definition with_calibration (p : option Polynomial) (a : AOTF) : AOTF :=
  mk_AOTF (_handle a) (_nchannels a) p (calib_ids a) (_timeout a)
          (_amplitude_int_max a).

(** ** Computations: state passing with exceptions *)

(** [Diverge] is the outcome of a loop that ran out of the fuel the
    embedding gives it; [_loop_read_total] shows it never arises. *)
Inductive outcome (A : Type) : Type :=
| Ok (a : A)
| Raise (e : exn)
| Diverge.

Arguments Ok {A} a.
Arguments Raise {A} e.
Arguments Diverge {A}.

Definition M (A : Type) : Type := sys -> outcome A * sys.

Definition ret {A} (a : A) : M A := fun s => (Ok a, s).

Definition raise {A} (e : exn) : M A := fun s => (Raise e, s).

Definition bind {A B} (m : M A) (k : A -> M B) : M B :=
  fun s =>
    match m s with
    | (Ok a, s') => k a s'
    | (Raise e, s') => (Raise e, s')
    | (Diverge, s') => (Diverge, s')
    end.

Notation "'let*' x ':=' m 'in' k" := (bind m (fun x => k))
  (at level 10, x name, m at level 100, k at level 200, only parsing).

Notation "'do' m 'then' k" := (bind m (fun _ => k))
  (at level 10, m at level 100, k at level 200, only parsing).

Definition gets {A} (f : AOTF -> A) : M A := fun s => (Ok (f (self s)), s).

Definition modify_self (f : AOTF -> AOTF) : M unit :=
  fun s => (Ok tt, mk_sys (env s) (f (self s))).

Definition modify_env (f : world -> world) : M unit :=
  fun s => (Ok tt, mk_sys (f (env s)) (self s)).

(** A handle as [ctypes] passes it: [None] becomes the null handle. *)
Definition c_handle (h : option Z) : Z := default 0 h.

Module Dll.

Definition AotfOpen (controller_index : Z) : M Z :=
  fun s => (Ok (AotfOpen (dll (env s)) controller_index), s).

Definition AotfClose (h : Z) : M Z :=
  fun s => (Ok (AotfClose (dll (env s)) h), s).

Definition AotfGetInstance (h : Z) : M Z :=
  fun s => (Ok (AotfGetInstance (dll (env s)) h), s).

(** The buffer is logged whether or not the driver reports success. *)
Definition AotfWrite (h len : Z) (buffer : string) : M Z :=
  fun s => (Ok (AotfWrite (dll (env s)) h len buffer),
            mk_sys (with_tx (tx (env s) ++ [buffer]) (env s)) (self s)).

(** A poll that finds nothing uses up one [Quiet]; pending data stays. *)
Definition AotfIsReadDataAvailable (h : Z) : M Z :=
  fun s =>
    match rx (env s) with
    | [] => (Ok 0, s)
    | Quiet :: rest => (Ok 0, mk_sys (with_rx rest (env s)) (self s))
    | Chunk _ :: _ | Fault :: _ | Garbled _ :: _ => (Ok 1, s)
    end.

(** Return code and the bytes read. *)
Definition AotfRead (h length : Z) : M (Z * received) :=
  fun s =>
    match rx (env s) with
    | Chunk data :: rest =>
        (Ok (1, Text data), mk_sys (with_rx rest (env s)) (self s))
    | Garbled reason :: rest =>
        (Ok (1, NotUtf8 reason), mk_sys (with_rx rest (env s)) (self s))
    | Fault :: rest => (Ok (0, Text ""), mk_sys (with_rx rest (env s)) (self s))
    | _ => (Ok (0, Text ""), s)
    end.

End Dll.

(** [bytes.decode()]. *)
Definition decode (bytes : received) : M string :=
  match bytes with
  | Text data => ret data
  | NotUtf8 reason => raise (UnicodeDecodeError reason)
  end.

(** An operator application: the exception it raises, or its value. *)
Definition checked {A} (error : option exn) (result : A) : M A :=
  match error with
  | Some e => raise e
  | None => ret result
  end.

(** [time.perf_counter()], in milliseconds. *)
Definition perf_counter : M Z := fun s => (Ok (clock (env s)), s).

(** [time.sleep], in milliseconds: the clock advances by the amount asked
    for; driver calls take no time. *)
Definition sleep (ms : Z) : M unit :=
  modify_env (fun w => with_clock (clock w + ms) w).

Definition print (msg : string) : M unit :=
  modify_env (fun w => with_stdout (stdout w ++ [msg]) w).

(** The state once [msg] has been printed, and once [buffer] has been
    handed to the driver. *)
Definition printed (msg : string) (s : sys) : sys :=
  mk_sys (with_stdout (stdout (env s) ++ [msg]) (env s)) (self s).

Definition sent (buffer : string) (s : sys) : sys :=
  mk_sys (with_tx (tx (env s) ++ [buffer]) (env s)) (self s).

(** ** Public calls *)

(** What a public method hands back. *)
Inductive value : Type :=
| VNone
| VStr (text : string)
| VInt (z : Z)
| VPoly (p : option Polynomial).

(** The public methods of the class, with their arguments. *)
Inductive operation : Type :=
| op_open (controller_index : Z)
| op_close
| op_get_controller_index
| op_query (msg : string)
| op_write (msg : string)
| op_get_serial
| op_get_date
| op_reset
| op_set_acoustic_frequency (frequency : float) (channel : Z)
| op_set_acoustic_frequency_MHz (frequency : float) (channel : Z)
| op_set_acoustic_frequency_Hz (frequency : float) (channel : Z)
| op_calibration_get
| op_calibration_set (calibration_id : string)
| op_set_wavelength (wavelength : float) (channel : Z)
| op_set_amplitude_int (amplitude : pynum) (channel : Z)
| op_set_amplitude_percent (amplitude : pynum) (channel : Z)
| op_set_amplitude (amplitude : pynum) (channel : Z).

Definition is_open (o : operation) : bool :=
  match o with
  | op_open _ => true
  | _ => false
  end.

(** An int that fits the C [int] the driver takes and returns. *)
Definition c_int (z : Z) : Prop := - 2 ^ 31 <= z < 2 ^ 31.

(** A call whose controller index or channel is such an int. *)
Definition plain_arguments (o : operation) : Prop :=
  match o with
  | op_open i => c_int i
  | op_set_acoustic_frequency _ c
  | op_set_acoustic_frequency_MHz _ c
  | op_set_acoustic_frequency_Hz _ c
  | op_set_wavelength _ c
  | op_set_amplitude_int _ c
  | op_set_amplitude_percent _ c
  | op_set_amplitude _ c => c_int c
  | _ => True
  end.

(** ** The class [AOTF] *)

Section Engine.

(** [str(x)] of a float, as an f-string inserts it: Python's own
    conversion, taken as given. *)
Variable float_str : float -> string.

(** [p(x)]: numpy's evaluation of a [Polynomial] object, taken as given. *)
Variable Polynomial_call : Polynomial -> float -> float.

(** The module-level table, [toml.load('./calibration.toml')]. *)
Variable calibration : gmap string calib_entry.

(** [str(x)] of a number. *)
Definition py_str (x : pynum) : string :=
  match x with
  | PyInt z => str_int z
  | PyFloat f => float_str f
  end.

(** [AOTF.__init__] (lines 24-31). *)
Definition __init__ : AOTF :=
  {| _handle := None;
     _nchannels := 8;
     _calibration := None;
     calib_ids := map fst (map_to_list calibration);
     _timeout := 10;
     _amplitude_int_max := 16383 |}.

(** [_check_handle] (lines 33-36): make sure the communication with the
    controller has been opened. *)
Definition _check_handle : M unit :=
  let* h := gets _handle in
  match h with
  | None => raise NotOpenError
  | Some _ => ret tt
  end.

(** [_write] (lines 38-43). *)
Definition _write (message : string) : M unit :=
  do _check_handle then
  let* h := gets _handle in
  let* r := Dll.AotfWrite (c_handle h) (Z.of_nat (String.length message)) message in
  if r =? 0 then raise TransportWriteError else ret tt.

(** [_is_data_available] (lines 57-60). *)
Definition _is_data_available : M bool :=
  do _check_handle then
  let* h := gets _handle in
  let* r := Dll.AotfIsReadDataAvailable (c_handle h) in
  ret (negb (r =? 0)).

(** [_read] (lines 45-55); the class always calls it with the default
    length, 256. What was read is decoded before it is returned
    (line 53). *)
Definition _read (length : Z) : M string :=
  do _check_handle then
  let* avail := _is_data_available in
  if avail then
    let* h := gets _handle in
    let* r := Dll.AotfRead (c_handle h) length in
    if fst r =? 0 then raise TransportReadError else decode (snd r)
  else ret "".

(** [_check_channel] (lines 62-64). The test is a conjunction, as written
    in the class. *)
Definition _check_channel (channel : Z) : M unit :=
  let* n := gets _nchannels in
  if (channel <? 0) && (channel >=? n)
  then raise (InvalidChannelError n)
  else ret tt.

(** [_check_message_done] (lines 81-86). *)
Definition _check_message_done (read msg : string) : M bool :=
  let splits := split_crlf read in
  match getitem splits 0 with
  | None => raise (IndexError "list index out of range")
  | Some first =>
      if negb (String.eqb first msg) then ret false
      else
        match getitem splits (-1) with
        | None => raise (IndexError "list index out of range")
        | Some last => ret (mem "*"%char last)
        end
  end.

(** [_loop_read] (lines 66-79), in three parts. First the body of
    [while True] up to the timeout test: it either returns
    the stripped answer ([inl]) or falls through with the buffer it has
    ([inr]). *)
Definition _loop_read_body (msg read : string) : M (string + string) :=
  let* avail := _is_data_available in
  if avail : bool then
    let* chunk := _read 256 in
    let read := read ++ chunk in
    let* done := _check_message_done read msg in
    if done : bool then
      let read := lstrip (msg ++ CRLF) read in
      let read := rstrip (CRLF ++ "* ") read in
      ret (inl read)
    else ret (inr read)
  else
    do sleep 100 then ret (inr read).

(** Then the loop, one unit of [fuel] per iteration; [start] is the clock
    reading taken before the loop. *)
Fixpoint _loop_read_from (fuel : nat) (msg : string) (start : Z) (read : string)
  : M string :=
  match fuel with
  | O => fun s => (Diverge, s)
  | S fuel' =>
      let* step := _loop_read_body msg read in
      match step with
      | inl answer => ret answer
      | inr read =>
          let* now := perf_counter in
          let* timeout := gets _timeout in
          if now - start >? 1000 * timeout then ret ""
          else _loop_read_from fuel' msg start read
      end
  end.

(** Iterations the loop can need: one per pending receive event, one per
    100 ms sleep that fits in the timeout, and the last one. *)
Definition loop_fuel (s : sys) : nat :=
  (List.length (rx (env s)) + Z.to_nat (1000 * _timeout (self s) / 100) + 1)%nat.

(** And the method: the clock is read, the buffer starts empty. *)
Definition _loop_read (msg : string) : M string :=
  let* start := perf_counter in
  fun s => _loop_read_from (loop_fuel s) msg start "" s.

(** [query] (lines 88-90). *)
Definition query (msg : string) : M string :=
  do _write (with_cr msg) then
  _loop_read msg.

(** [write] (lines 92-94). *)
Definition write (msg : string) : M unit :=
  do print msg then
  _write (with_cr msg).

(** [open] (lines 96-101). *)
Definition open (controller_index : Z) : M unit :=
  let* r := Dll.AotfOpen controller_index in
  if negb (r =? 0) then modify_self (with_handle (Some r))
  else raise (DeviceOpenError controller_index).

(** [close] (lines 103-108). *)
Definition close : M unit :=
  do _check_handle then
  let* h := gets _handle in
  let* r := Dll.AotfClose (c_handle h) in
  if r =? 0 then raise DeviceCloseError
  else modify_self (with_handle None).

(** [get_controller_index], [get_serial], [get_date], [reset]
    (lines 110-121). *)
Definition get_controller_index : M Z :=
  do _check_handle then
  let* h := gets _handle in
  Dll.AotfGetInstance (c_handle h).

Definition get_serial : M string := query "BoardId Serial".

Definition get_date : M string := query "BoardId Date".

Definition reset : M unit := write "dds reset".

(** [set_acoustic_frequency_MHz] (lines 127-130): Get/Set the acoustic
    frequency in MHz. *)
Definition set_acoustic_frequency_MHz (frequency : float) (channel : Z) : M unit :=
  do _check_channel channel then
  write ("Dds Frequency " ++ str_int channel ++ " " ++ float_str frequency).

(** [set_acoustic_frequency_Hz] (lines 132-135): Get/Set the acoustic
    frequency in Hz. *)
Definition set_acoustic_frequency_Hz (frequency : float) (channel : Z) : M unit :=
  do _check_channel channel then
  write ("Dds Frequency " ++ str_int channel ++ " !" ++ float_str frequency).

(** [set_acoustic_frequency] (lines 123-125). *)
Definition set_acoustic_frequency (frequency : float) (channel : Z) : M unit :=
  set_acoustic_frequency_Hz frequency channel.

(** [Polynomial(coef, domain=domain, window=window)], for a list of
    floats and two pairs of floats: numpy refuses an empty coefficient
    list and keeps any other as it is. *)
Definition Polynomial_new (coef : list float) (domain window : float * float)
  : M Polynomial :=
  match coef with
  | [] => raise EmptyCoefficientsError
  | _ :: _ => ret (mk_Polynomial coef domain window)
  end.

(** The [calibration] property: getter (lines 137-139) and setter
    (lines 141-146). Entries are taken to hold both keys, well-shaped. *)
Definition calibration_get : M (option Polynomial) := gets _calibration.

Definition calibration_set (calibration_id : string) : M unit :=
  let* ids := gets calib_ids in
  if bool_decide (calibration_id ∈ ids) then
    match calibration !! calibration_id with
    | None => raise (KeyError calibration_id)
    | Some e =>
        let* p := Polynomial_new (coeffs e) (entry_domain e) (entry_domain e) in
        modify_self (with_calibration (Some p))
    end
  else ret tt.

(** [set_wavelength] (lines 148-151). *)
Definition set_wavelength (wavelength : float) (channel : Z) : M unit :=
  do _check_channel channel then
  let* cal := gets _calibration in
  match cal with
  | None => ret tt
  | Some p =>
      if contains (closed (PyFloat (fst (domain p))) (PyFloat (snd (domain p))))
                  (PyFloat wavelength)
      then set_acoustic_frequency_MHz (Polynomial_call p wavelength) channel
      else ret tt
  end.

(** [set_amplitude_int] (lines 153-156). *)
Definition set_amplitude_int (amplitude : pynum) (channel : Z) : M unit :=
  do _check_channel channel then
  let* amax := gets _amplitude_int_max in
  if contains (closed (PyInt 0) (PyInt amax)) amplitude
  then write ("Dds Amplitude " ++ str_int channel ++ " " ++ py_str amplitude)
  else ret tt.

(** [set_amplitude_percent] (lines 158-160) and [set_amplitude]
    (lines 162-163). *)
Definition set_amplitude_percent (amplitude : pynum) (channel : Z) : M unit :=
  let* amax := gets _amplitude_int_max in
  let* product :=
    checked (py_mul_error (PyInt amax) amplitude) (py_mul (PyInt amax) amplitude) in
  let* amplitude_int :=
    checked (py_truediv_error product 100) (py_truediv product 100) in
  set_amplitude_int amplitude_int channel.

Definition set_amplitude (amplitude : pynum) (channel : Z) : M unit :=
  set_amplitude_percent amplitude channel.

(** A method that returns nothing returns [None]. *)
Definition returning {A} (f : A -> value) (m : M A) : M value :=
  let* a := m in ret (f a).

(** Dispatch of a public call. *)
Definition call (o : operation) : M value :=
  match o with
  | op_open i => returning (fun _ => VNone) (open i)
  | op_close => returning (fun _ => VNone) close
  | op_get_controller_index => returning VInt get_controller_index
  | op_query msg => returning VStr (query msg)
  | op_write msg => returning (fun _ => VNone) (write msg)
  | op_get_serial => returning VStr get_serial
  | op_get_date => returning VStr get_date
  | op_reset => returning (fun _ => VNone) reset
  | op_set_acoustic_frequency f c =>
      returning (fun _ => VNone) (set_acoustic_frequency f c)
  | op_set_acoustic_frequency_MHz f c =>
      returning (fun _ => VNone) (set_acoustic_frequency_MHz f c)
  | op_set_acoustic_frequency_Hz f c =>
      returning (fun _ => VNone) (set_acoustic_frequency_Hz f c)
  | op_calibration_get => returning VPoly calibration_get
  | op_calibration_set id => returning (fun _ => VNone) (calibration_set id)
  | op_set_wavelength w c => returning (fun _ => VNone) (set_wavelength w c)
  | op_set_amplitude_int a c => returning (fun _ => VNone) (set_amplitude_int a c)
  | op_set_amplitude_percent a c =>
      returning (fun _ => VNone) (set_amplitude_percent a c)
  | op_set_amplitude a c => returning (fun _ => VNone) (set_amplitude a c)
  end.

End Engine.

(** [amax * x / 100] as [set_amplitude_percent] computes it: the
    exception the arithmetic raises, or the scaled value. *)
Definition scaled (amax : Z) (x : pynum) : exn + pynum :=
  match py_mul_error (PyInt amax) x with
  | Some e => inl e
  | None =>
      let product := py_mul (PyInt amax) x in
      match py_truediv_error product 100 with
      | Some e => inl e
      | None => inr (py_truediv product 100)
      end
  end.

(** Whether a call, made on an object with attributes [a], gets as far as
    a driver call: the calibration property never does, and the gated
    setters only when their gate lets the command through. *)
Definition reaches_driver (a : AOTF) (o : operation) : bool :=
  match o with
  | op_calibration_get | op_calibration_set _ => false
  | op_set_wavelength w _ =>
      match _calibration a with
      | None => false
      | Some p =>
          contains (closed (PyFloat (fst (domain p))) (PyFloat (snd (domain p))))
                   (PyFloat w)
      end
  | op_set_amplitude_int x _ =>
      contains (closed (PyInt 0) (PyInt (_amplitude_int_max a))) x
  | op_set_amplitude_percent x _ | op_set_amplitude x _ =>
      match scaled (_amplitude_int_max a) x with
      | inl _ => false
      | inr y => contains (closed (PyInt 0) (PyInt (_amplitude_int_max a))) y
      end
  | _ => true
  end.

(** The attribute values [__init__] sets and no method changes. *)
Definition configured (table : gmap string calib_entry) (a : AOTF) : Prop :=
  _nchannels a = 8 /\
  calib_ids a = map fst (map_to_list table) /\
  _timeout a = 10 /\
  _amplitude_int_max a = 16383.

(** A calibration whose domain is an interval of numbers, [lo <= hi]. *)
Definition proper_domain (p : Polynomial) : Prop :=
  PrimFloat.leb (fst (domain p)) (snd (domain p)) = true.

(** ** Readings used to state what the loop does *)

(** The state after [time.sleep(0.1)], and after the first pending receive
    event has been used up. *)
Definition slept (s : sys) : sys :=
  mk_sys (with_clock (clock (env s) + 100) (env s)) (self s).

Definition popped (s : sys) : sys :=
  mk_sys (with_rx (tl (rx (env s))) (env s)) (self s).

(** The value [_check_message_done] computes. *)
Definition message_done (read msg : string) : bool :=
  match split_crlf read with
  | [] => false
  | first :: rest =>
      String.eqb first msg && mem "*"%char (List.last (first :: rest) first)
  end.

(** Whether ['\r\n'] occurs in a string. *)
Fixpoint has_crlf (s : string) : bool :=
  match s with
  | EmptyString => false
  | String c s' =>
      match s' with
      | String c' _ => (Ascii.eqb c CR && Ascii.eqb c' LF) || has_crlf s'
      | EmptyString => false
      end
  end.

(** The attributes that stay as [__init__] set them are the same in [a]
    and [a']. *)
Definition same_settings (a a' : AOTF) : Prop :=
  _nchannels a' = _nchannels a /\
  calib_ids a' = calib_ids a /\
  _timeout a' = _timeout a /\
  _amplitude_int_max a' = _amplitude_int_max a.

(** A computation that always finishes, by returning or raising, and
    leaves those attributes alone. *)
Definition well_behaved {A} (m : M A) : Prop :=
  forall s, fst (m s) <> Diverge /\ same_settings (self s) (self (snd (m s))).

(** Sleeps that fit in what is left of the timeout, [start] being the
    clock reading the loop began at. *)
Definition sleeps_left (start : Z) (s : sys) : nat :=
  Z.to_nat ((1000 * _timeout (self s) - (clock (env s) - start)) / 100).

(** ** Concrete instances, for running the class on examples *)

Module Demo.

Definition digit (d : Z) : ascii := ascii_of_nat (48 + Z.to_nat d).

(** Decimal digits of [num / den], a fraction below one whose expansion
    ends within [n] digits. *)
Fixpoint frac_digits (n : nat) (num den : Z) : string :=
  match n with
  | O => ""
  | S n' =>
      if num =? 0 then ""
      else String (digit (10 * num / den)) (frac_digits n' (10 * num mod den) den)
  end.

(** The exact decimal expansion of a float. On a float whose exact
    expansion is short, such as [8191.5] or [550.0], this is the text
    Python's [str] gives. *)
Definition exact_decimal_str (f : float) : string :=
  match Prim2SF f with
  | S754_zero sign => if sign then "-0.0" else "0.0"
  | S754_infinity sign => if sign then "-inf" else "inf"
  | S754_nan => "nan"
  | S754_finite sign m e =>
      (if sign then "-" else "") ++
      (if e >=? 0 then str_int (Z.pos m * 2 ^ e) ++ ".0"
       else
         let den := 2 ^ (- e) in
         let frac := frac_digits (Z.to_nat (- e)) (Z.pos m mod den) den in
         str_int (Z.pos m / den) ++ "." ++
         (match frac with EmptyString => "0" | _ => frac end))
  end.

(** Horner's rule, last coefficient first, as [numpy]'s [polyval] runs
    it. *)
Fixpoint polyval (x : float) (c : list float) : float :=
  match c with
  | [] => 0%float
  | [cn] => (cn + x * 0)%float
  | c0 :: rest => (c0 + polyval x rest * x)%float
  end.

(** Evaluation of a [Polynomial]: the argument is mapped from [domain] to
    [window] by the affine map between the two intervals, then Horner's
    rule applies. *)
Definition horner_call (p : Polynomial) (x : float) : float :=
  let oldlen := (snd (domain p) - fst (domain p))%float in
  let newlen := (snd (window p) - fst (window p))%float in
  let off := ((snd (domain p) * fst (window p)
               - fst (domain p) * snd (window p)) / oldlen)%float in
  let scl := (newlen / oldlen)%float in
  polyval (off + scl * x)%float (coef p).

(** A driver that accepts everything: controller [i] opens as handle
    [i + 1]. *)
Definition dll_ok : driver :=
  mk_driver (fun i => i + 1) (fun _ => 1) (fun h => h - 1) (fun _ _ _ => 1).

(** A driver that refuses to close. *)
Definition dll_stuck : driver :=
  mk_driver (fun i => i + 1) (fun _ => 0) (fun h => h - 1) (fun _ _ _ => 1).

(** A table with one identity calibration on [[500, 600]]. *)
Definition table : gmap string calib_entry :=
  {[ "RF1" := mk_entry [0%float; 1%float] (500%float, 600%float) ]}.

(** A freshly constructed object in a world that will deliver [script]. *)
Definition fresh (script : list rx_event) : sys :=
  mk_sys (mk_world dll_ok script [] [] 0) (__init__ table).

(** The same after [open(0)]. *)
Definition opened (script : list rx_event) : sys :=
  mk_sys (mk_world dll_ok script [] [] 0) (with_handle (Some 1) (__init__ table)).

(** An open object whose driver refuses to close. *)
Definition stuck : sys :=
  mk_sys (mk_world dll_stuck [] [] [] 0) (with_handle (Some 1) (__init__ table)).

(** An open object with calibration ["RF1"] active. *)
Definition calibrated : sys :=
  mk_sys (mk_world dll_ok [] [] [] 0)
         (with_calibration
            (Some (mk_Polynomial [0%float; 1%float] (500%float, 600%float)
                                 (500%float, 600%float)))
            (with_handle (Some 1) (__init__ table))).

End Demo.

(** * Properties *)

(** ** Strings *)

Lemma append_assoc (a b c : string) : (a ++ b) ++ c = a ++ (b ++ c).
Proof.
  induction a as [|x a IH]; [reflexivity|].
  change (String x ((a ++ b) ++ c) = String x (a ++ (b ++ c))). now f_equal.
Qed.

Lemma append_nil_r (a : string) : a ++ "" = a.
Proof.
  induction a as [|x a IH]; [reflexivity|].
  change (String x (a ++ "") = String x a). now f_equal.
Qed.

Lemma cons_first_nonempty (c : ascii) (l : list string) : cons_first c l <> [].
Proof. destruct l; discriminate. Qed.

Lemma split_crlf_nonempty (s : string) : split_crlf s <> [].
Proof.
  destruct s as [|c [|c' s'']]; simpl; try discriminate.
  destruct (Ascii.eqb c CR && Ascii.eqb c' LF); [discriminate|].
  apply cons_first_nonempty.
Qed.

Lemma getitem_first {A} (x : A) (l : list A) : getitem (x :: l) 0 = Some x.
Proof.
  unfold getitem. simpl List.length.
  replace (0 <? 0) with false by reflexivity.
  destruct (Z.ltb_spec 0 (Z.of_nat (S (List.length l)))) as [_|H]; [reflexivity | lia].
Qed.

Lemma last_nonempty_default {A} (y : A) (l : list A) (d d' : A) :
  List.last (y :: l) d = List.last (y :: l) d'.
Proof.
  revert y. induction l as [|z l IH]; intros y; [reflexivity|].
  change (List.last (z :: l) d = List.last (z :: l) d'). apply IH.
Qed.

Lemma nth_error_last {A} (x : A) (l : list A) :
  nth_error (x :: l) (List.length l) = Some (List.last (x :: l) x).
Proof.
  revert x. induction l as [|y l IH]; intros x; [reflexivity|].
  change (nth_error (y :: l) (List.length l) = Some (List.last (y :: l) x)).
  rewrite IH. f_equal. apply last_nonempty_default.
Qed.

Lemma getitem_last {A} (x : A) (l : list A) :
  getitem (x :: l) (-1) = Some (List.last (x :: l) x).
Proof.
  unfold getitem. simpl List.length.
  replace (-1 <? 0) with true by reflexivity.
  destruct (Z.leb_spec 0 (-1 + Z.of_nat (S (List.length l)))) as [_|H]; [|lia].
  destruct (Z.ltb_spec (-1 + Z.of_nat (S (List.length l)))
                       (Z.of_nat (S (List.length l)))) as [_|H]; [|lia].
  simpl andb. cbv iota.
  replace (Z.to_nat (-1 + Z.of_nat (S (List.length l)))) with (List.length l) by lia.
  apply nth_error_last.
Qed.

(** ** Completion detection *)

(** C10. [_check_message_done] is total: splitting on ['\r\n'] never gives
    an empty list, so both [splits[0]] and [splits[-1]] exist (also for the
    empty buffer), no exception is raised, the state is untouched, and the
    answer is [True] exactly when the first line equals [msg] and the last
    line contains ['*']. *)
Theorem check_message_done_total (read msg : string) (s : sys) :
  split_crlf read <> [] /\
  exists first last : string,
    getitem (split_crlf read) 0 = Some first /\
    getitem (split_crlf read) (-1) = Some last /\
    exists b : bool,
      _check_message_done read msg s = (Ok b, s) /\
      (b = true <-> first = msg /\ mem "*"%char last = true).
Proof.
  split; [apply split_crlf_nonempty|].
  unfold _check_message_done.
  destruct (split_crlf read) as [|first rest] eqn:E.
  - exfalso. now apply (split_crlf_nonempty read).
  - exists first, (List.last (first :: rest) first).
    rewrite getitem_first, getitem_last.
    split; [reflexivity|]. split; [reflexivity|].
    destruct (String.eqb_spec first msg) as [-> | Hne]; simpl.
    + exists (mem "*"%char (List.last (msg :: rest) msg)).
      split; [reflexivity|]. tauto.
    + exists false. split; [reflexivity|].
      split; [discriminate | intros [H _]; contradiction].
Qed.

(** ** The handle guard and the two write paths *)

Ltac run_monad :=
  unfold bind, ret, raise, gets, modify_self, modify_env; simpl.

Lemma _check_handle_open (s : sys) (h : Z) :
  _handle (self s) = Some h -> _check_handle s = (Ok tt, s).
Proof. intros H. unfold _check_handle. run_monad. now rewrite H. Qed.

Lemma _check_handle_closed (s : sys) :
  _handle (self s) = None -> _check_handle s = (Raise NotOpenError, s).
Proof. intros H. unfold _check_handle. run_monad. now rewrite H. Qed.

Lemma _write_open (s : sys) (h : Z) (message : string) :
  _handle (self s) = Some h ->
  _write message s =
    (if AotfWrite (dll (env s)) h (Z.of_nat (String.length message)) message =? 0
     then Raise TransportWriteError else Ok tt,
     sent message s).
Proof.
  intros H. unfold _write, bind at 1. rewrite (_check_handle_open s h H).
  unfold Dll.AotfWrite. run_monad. rewrite H. simpl.
  now destruct (AotfWrite _ _ _ _ =? 0).
Qed.

Lemma _write_closed (s : sys) (message : string) :
  _handle (self s) = None -> _write message s = (Raise NotOpenError, s).
Proof.
  intros H. unfold _write, bind at 1. now rewrite (_check_handle_closed s H).
Qed.

Lemma write_open (s : sys) (h : Z) (msg : string) :
  _handle (self s) = Some h ->
  write msg s =
    (if AotfWrite (dll (env s)) h
          (Z.of_nat (String.length (with_cr msg))) (with_cr msg) =? 0
     then Raise TransportWriteError else Ok tt,
     sent (with_cr msg) (printed msg s)).
Proof.
  intros H. unfold write, bind at 1. unfold print, modify_env.
  change (mk_sys _ (self s)) with (printed msg s).
  rewrite (_write_open (printed msg s) h); [reflexivity | exact H].
Qed.

Lemma write_closed (s : sys) (msg : string) :
  _handle (self s) = None -> write msg s = (Raise NotOpenError, printed msg s).
Proof.
  intros H. unfold write, bind at 1. unfold print, modify_env.
  change (mk_sys _ (self s)) with (printed msg s).
  now rewrite (_write_closed (printed msg s)).
Qed.

(** With eight channels the test of [_check_channel] holds of no integer:
    nothing is below [0] and at least [8]. *)
Lemma _check_channel_passes (s : sys) (channel : Z) :
  0 <= _nchannels (self s) -> _check_channel channel s = (Ok tt, s).
Proof.
  intros H. unfold _check_channel. run_monad.
  destruct (Z.ltb_spec channel 0) as [Hlt|Hge]; [|reflexivity].
  destruct (Z.geb_spec channel (_nchannels (self s))) as [Hn|Hn]; [lia | reflexivity].
Qed.

Lemma snoc_neq {A} (l : list A) (x : A) : (l ++ [x])%list <> l.
Proof.
  intros H. apply (f_equal (@List.length A)) in H.
  rewrite List.length_app in H. simpl in H. lia.
Qed.

(** ** Closing the device *)

Lemma close_closed (s : sys) :
  _handle (self s) = None -> close s = (Raise NotOpenError, s).
Proof.
  intros H. unfold close, bind at 1. now rewrite (_check_handle_closed s H).
Qed.

Lemma close_open (s : sys) (h : Z) :
  _handle (self s) = Some h ->
  close s =
    if AotfClose (dll (env s)) h =? 0 then (Raise DeviceCloseError, s)
    else (Ok tt, mk_sys (env s) (with_handle None (self s))).
Proof.
  intros H. unfold close, bind at 1. rewrite (_check_handle_open s h H).
  unfold Dll.AotfClose. run_monad. rewrite H. simpl.
  now destruct (AotfClose (dll (env s)) h =? 0).
Qed.

(** C9. [close] needs a handle and fails with [NotOpenError] without one;
    when the driver refuses to close it fails with [DeviceCloseError] and
    the whole state, the stored handle included, is as before; when the
    driver closes, the stored handle becomes [None] and nothing else
    changes. *)
Theorem close_spec (s : sys) :
  (_handle (self s) = None -> close s = (Raise NotOpenError, s)) /\
  (forall h, _handle (self s) = Some h -> AotfClose (dll (env s)) h = 0 ->
             close s = (Raise DeviceCloseError, s) /\
             _handle (self (snd (close s))) = Some h) /\
  (forall h, _handle (self s) = Some h -> AotfClose (dll (env s)) h <> 0 ->
             close s = (Ok tt, mk_sys (env s) (with_handle None (self s))) /\
             _handle (self (snd (close s))) = None).
Proof.
  split; [apply close_closed|]. split.
  - intros h Hh Hret. rewrite (close_open s h Hh), Hret. simpl. now split.
  - intros h Hh Hret. rewrite (close_open s h Hh).
    destruct (Z.eqb_spec (AotfClose (dll (env s)) h) 0); [contradiction|].
    now split.
Qed.

(** The three cases on examples: no handle; a driver that refuses; a
    driver that closes. *)
Lemma close_spec_witness :
  close (Demo.fresh []) = (Raise NotOpenError, Demo.fresh []) /\
  close Demo.stuck = (Raise DeviceCloseError, Demo.stuck) /\
  _handle (self (snd (close (Demo.opened [])))) = None.
Proof.
  split; [|split].
  - apply (proj1 (close_spec (Demo.fresh []))). reflexivity.
  - apply (proj1 (proj2 (close_spec Demo.stuck)) 1); reflexivity.
  - apply (proj2 (proj2 (close_spec (Demo.opened []))) 1); [reflexivity | discriminate].
Defined.

(** ** The calibration property *)

Lemma calib_ids_lookup (table : gmap string calib_entry) (id : string) :
  id ∈ map fst (map_to_list table) <-> is_Some (table !! id).
Proof.
  rewrite list_elem_of_fmap. split.
  - intros [[k e] [-> H]]. apply elem_of_map_to_list in H. simpl. eauto.
  - intros [e H]. exists (id, e). split; [reflexivity|].
    now apply elem_of_map_to_list.
Qed.

(** C8. Assigning a key that the table does not hold raises nothing and
    leaves the whole state, the active calibration included, as it was;
    so an assignment that changes the active calibration had its key in
    the table. *)
Theorem calibration_set_unknown_key
    (table : gmap string calib_entry) (s : sys) (id : string) :
  calib_ids (self s) = map fst (map_to_list table) ->
  (table !! id = None -> calibration_set table id s = (Ok tt, s)) /\
  (_calibration (self (snd (calibration_set table id s))) <> _calibration (self s) ->
   is_Some (table !! id)).
Proof.
  intros Hids.
  assert (Hnone : table !! id = None -> calibration_set table id s = (Ok tt, s)).
  { intros Hno. unfold calibration_set. run_monad. rewrite Hids.
    rewrite bool_decide_eq_false_2; [reflexivity|].
    rewrite calib_ids_lookup, Hno. intros [e He]. discriminate. }
  split; [exact Hnone|].
  intros Hchg. destruct (table !! id) as [e|] eqn:E; [eauto|].
  exfalso. apply Hchg. now rewrite (Hnone eq_refl).
Qed.

(** With ["RF1"] active, assigning the unknown ["RF2"] changes nothing. *)
Lemma calibration_set_unknown_key_witness :
  calibration_set Demo.table "RF2" Demo.calibrated = (Ok tt, Demo.calibrated).
Proof.
  apply (proj1 (calibration_set_unknown_key Demo.table Demo.calibrated "RF2" eq_refl)).
  reflexivity.
Defined.

(** ** Channel-scoped setters *)

(** C2. Evaluation of [set_acoustic_frequency_Hz] on any channel
    whatsoever, [c < 0] and [c >= 8] included: with a handle held and a
    driver that accepts the write, the call raises nothing and the command
    for channel [c] goes out. The channel test never rejects. *)
Theorem set_acoustic_frequency_Hz_any_channel
    (float_str : float -> string) (s : sys) (h : Z) (f : float) (c : Z) :
  let msg := "Dds Frequency " ++ str_int c ++ " !" ++ float_str f in
  _nchannels (self s) = 8 ->
  _handle (self s) = Some h ->
  AotfWrite (dll (env s)) h (Z.of_nat (String.length (with_cr msg)))
            (with_cr msg) <> 0 ->
  set_acoustic_frequency_Hz float_str f c s
  = (Ok tt, sent (with_cr msg) (printed msg s)).
Proof.
  intros msg Hn Hh Hw. unfold set_acoustic_frequency_Hz, bind at 1.
  rewrite _check_channel_passes by lia.
  fold msg. rewrite (write_open s h msg Hh).
  destruct (Z.eqb_spec (AotfWrite (dll (env s)) h
              (Z.of_nat (String.length (with_cr msg))) (with_cr msg)) 0);
    [contradiction | reflexivity].
Qed.

(** Channel 8 of an eight-channel controller is accepted. *)
Lemma set_acoustic_frequency_Hz_any_channel_witness :
  set_acoustic_frequency_Hz Demo.exact_decimal_str 1.5%float 8 (Demo.opened [])
  = (Ok tt,
     sent (with_cr "Dds Frequency 8 !1.5")
          (printed "Dds Frequency 8 !1.5" (Demo.opened []))).
Proof.
  apply (set_acoustic_frequency_Hz_any_channel
           Demo.exact_decimal_str (Demo.opened []) 1 1.5%float 8);
    [reflexivity | reflexivity | discriminate].
Defined.


(** The amplitude range meets a float as the floats [0.0] and [16383.0]
    do, and lets NaN through. *)
Lemma contains_float_range (f : float) :
  contains (closed (PyInt 0) (PyInt 16383)) (PyFloat f)
  = PrimFloat.is_nan f || (PrimFloat.leb 0%float f && PrimFloat.leb f 16383%float).
Proof. reflexivity. Qed.

(** [set_amplitude_int] with a handle held and a valid channel: the range
    test decides between [write] and nothing. *)
Lemma set_amplitude_int_run
    (float_str : float -> string) (s : sys) (a : pynum) (c : Z) :
  _nchannels (self s) = 8 ->
  set_amplitude_int float_str a c s
  = if contains (closed (PyInt 0) (PyInt (_amplitude_int_max (self s)))) a
    then write ("Dds Amplitude " ++ str_int c ++ " " ++ py_str float_str a) s
    else (Ok tt, s).
Proof.
  intros Hn. unfold set_amplitude_int, bind at 1.
  rewrite _check_channel_passes by lia. run_monad.
  destruct (contains _ a); reflexivity.
Qed.



(** A float amplitude meets the same test; one that is not a number
    passes it and goes out as it is. *)
Example set_amplitude_int_nan :
  tx (env (snd (set_amplitude_int Demo.exact_decimal_str (PyFloat nan) 0
                                  (Demo.opened []))))
  = [with_cr "Dds Amplitude 0 nan"].
Proof. reflexivity. Qed.

(** [set_amplitude_percent] raises what the scaling raises, and otherwise
    hands the scaled value to [set_amplitude_int]. *)
Lemma set_amplitude_percent_run
    (float_str : float -> string) (s : sys) (p : pynum) (c : Z) :
  set_amplitude_percent float_str p c s
  = match scaled (_amplitude_int_max (self s)) p with
    | inl e => (Raise e, s)
    | inr y => set_amplitude_int float_str y c s
    end.
Proof.
  unfold set_amplitude_percent, scaled, bind, gets. cbv beta iota zeta.
  destruct (py_mul_error _ p); [reflexivity|].
  unfold checked at 1, ret at 1. cbv beta iota.
  destruct (py_truediv_error _ 100); reflexivity.
Qed.

(** When the scaling raises nothing, [set_amplitude_percent] hands the
    scaled value to [set_amplitude_int]. *)
Lemma set_amplitude_percent_delegates
    (float_str : float -> string) (s : sys) (p : pynum) (c : Z) :
  let amax := _amplitude_int_max (self s) in
  py_mul_error (PyInt amax) p = None ->
  py_truediv_error (py_mul (PyInt amax) p) 100 = None ->
  set_amplitude_percent float_str p c s
  = set_amplitude_int float_str (py_truediv (py_mul (PyInt amax) p) 100) c s.
Proof.
  intros amax Hmul Hdiv. rewrite set_amplitude_percent_run. unfold scaled.
  fold amax. now rewrite Hmul, Hdiv.
Qed.

(** C6. Evaluation of [set_amplitude_percent] at 50 percent, given as the
    int [50] or as the float [50.0]: the scaled amplitude is the float
    [8191.5], it passes the range test as it is, and the command that goes
    out carries the text of [8191.5], not of the integer [8191]. *)
Theorem set_amplitude_percent_50
    (float_str : float -> string) (s : sys) (h : Z) (p : pynum) (c : Z) :
  p = PyInt 50 \/ p = PyFloat 50%float ->
  _nchannels (self s) = 8 ->
  _amplitude_int_max (self s) = 16383 ->
  _handle (self s) = Some h ->
  py_truediv (py_mul (PyInt (_amplitude_int_max (self s))) p) 100
  = PyFloat 8191.5%float /\
  tx (env (snd (set_amplitude_percent float_str p c s)))
  = (tx (env s)
       ++ [with_cr ("Dds Amplitude " ++ str_int c ++ " " ++ float_str 8191.5%float)%string])%list.
Proof.
  intros Hp Hn Hmax Hh.
  assert (Hscale : py_truediv (py_mul (PyInt 16383) p) 100 = PyFloat 8191.5%float).
  { destruct Hp as [-> | ->]; reflexivity. }
  rewrite set_amplitude_percent_delegates;
    [| rewrite Hmax; destruct Hp as [-> | ->]; reflexivity
     | rewrite Hmax; destruct Hp as [-> | ->]; reflexivity ].
  rewrite Hmax, Hscale.
  split; [reflexivity|].
  rewrite (set_amplitude_int_run float_str s _ c Hn), Hmax.
  change (contains (closed (PyInt 0) (PyInt 16383)) (PyFloat 8191.5%float)) with true.
  cbv iota. rewrite (write_open s h _ Hh). reflexivity.
Qed.

(** With the exact decimal text of a float, the command reads
    [Dds Amplitude 0 8191.5]. *)
Lemma set_amplitude_percent_50_witness :
  tx (env (snd (set_amplitude_percent Demo.exact_decimal_str (PyInt 50) 0 (Demo.opened []))))
  = [with_cr "Dds Amplitude 0 8191.5"].
Proof.
  apply (proj2 (set_amplitude_percent_50 Demo.exact_decimal_str (Demo.opened []) 1
                  (PyInt 50) 0 (or_introl eq_refl) eq_refl eq_refl eq_refl)).
Defined.

(** ** Wavelength *)

(** [set_wavelength] with a valid channel count: the calibration and the
    domain test decide between the MHz setter and nothing. *)
Lemma set_wavelength_run
    (float_str : float -> string) (Polynomial_call : Polynomial -> float -> float)
    (s : sys) (w : float) (c : Z) :
  _nchannels (self s) = 8 ->
  set_wavelength float_str Polynomial_call w c s
  = match _calibration (self s) with
    | None => (Ok tt, s)
    | Some p =>
        if PrimFloat.is_nan w
           || (PrimFloat.leb (fst (domain p)) w && PrimFloat.leb w (snd (domain p)))
        then set_acoustic_frequency_MHz float_str (Polynomial_call p w) c s
        else (Ok tt, s)
    end.
Proof.
  intros Hn. unfold set_wavelength, bind at 1.
  rewrite _check_channel_passes by lia. run_monad.
  destruct (_calibration (self s)) as [p|]; [|reflexivity].
  unfold contains, unordered, py_le, lower, upper.
  destruct (PrimFloat.is_nan w
            || (PrimFloat.leb (fst (domain p)) w && PrimFloat.leb w (snd (domain p))));
    reflexivity.
Qed.

Lemma set_acoustic_frequency_MHz_sends
    (float_str : float -> string) (s : sys) (h : Z) (f : float) (c : Z) :
  _nchannels (self s) = 8 ->
  _handle (self s) = Some h ->
  tx (env (snd (set_acoustic_frequency_MHz float_str f c s)))
  = (tx (env s)
       ++ [with_cr ("Dds Frequency " ++ str_int c ++ " " ++ float_str f)%string])%list.
Proof.
  intros Hn Hh. unfold set_acoustic_frequency_MHz, bind at 1.
  rewrite _check_channel_passes by lia.
  rewrite (write_open s h _ Hh). reflexivity.
Qed.

(** C7. With a handle held, a valid channel and a wavelength that is a
    number, [set_wavelength] hands a command to the driver exactly when a
    calibration is active and [lo <= w <= hi] for its domain [[lo, hi]];
    the command is [Dds Frequency c f] with [f] the calibration polynomial
    evaluated at [w]. Without an active calibration, or with [w] outside
    the domain, the call raises nothing and changes nothing. The domain of
    the active calibration is an interval of numbers, [lo <= hi]. *)
Theorem set_wavelength_gated
    (float_str : float -> string) (Polynomial_call : Polynomial -> float -> float)
    (s : sys) (h : Z) (w : float) (c : Z) :
  0 <= c < 8 ->
  _nchannels (self s) = 8 ->
  _handle (self s) = Some h ->
  PrimFloat.is_nan w = false ->
  (forall p, _calibration (self s) = Some p -> proper_domain p) ->
  let r := set_wavelength float_str Polynomial_call w c s in
  let inside (p : Polynomial) :=
    PrimFloat.leb (fst (domain p)) w = true /\ PrimFloat.leb w (snd (domain p)) = true in
  (forall p, _calibration (self s) = Some p -> inside p ->
     tx (env (snd r))
     = (tx (env s)
          ++ [with_cr ("Dds Frequency " ++ str_int c ++ " "
                       ++ float_str (Polynomial_call p w))%string])%list) /\
  (_calibration (self s) = None -> r = (Ok tt, s)) /\
  (forall p, _calibration (self s) = Some p -> ~ inside p -> r = (Ok tt, s)) /\
  (tx (env (snd r)) <> tx (env s)
   <-> exists p, _calibration (self s) = Some p /\ inside p).
Proof.
  intros Hc Hn Hh Hw _ r inside.
  assert (Hrun : r =
    match _calibration (self s) with
    | None => (Ok tt, s)
    | Some p =>
        if PrimFloat.leb (fst (domain p)) w && PrimFloat.leb w (snd (domain p))
        then set_acoustic_frequency_MHz float_str (Polynomial_call p w) c s
        else (Ok tt, s)
    end).
  { subst r. rewrite (set_wavelength_run float_str Polynomial_call s w c Hn), Hw.
    reflexivity. }
  assert (Hin : forall p, _calibration (self s) = Some p -> inside p ->
     tx (env (snd r))
     = (tx (env s)
          ++ [with_cr ("Dds Frequency " ++ str_int c ++ " "
                       ++ float_str (Polynomial_call p w))%string])%list).
  { intros p Hp [H1 H2]. rewrite Hrun, Hp, H1, H2.
    apply (set_acoustic_frequency_MHz_sends float_str s h _ c Hn Hh). }
  assert (Hout : forall p, _calibration (self s) = Some p -> ~ inside p -> r = (Ok tt, s)).
  { intros p Hp Hno. rewrite Hrun, Hp.
    destruct (PrimFloat.leb (fst (domain p)) w) eqn:E1;
      destruct (PrimFloat.leb w (snd (domain p))) eqn:E2; try reflexivity.
    exfalso. apply Hno. split; assumption. }
  assert (Hnone : _calibration (self s) = None -> r = (Ok tt, s)).
  { intros Hp. now rewrite Hrun, Hp. }
  repeat split; try assumption.
  - intros Hne. destruct (_calibration (self s)) as [p|] eqn:Hp.
    + exists p. split; [reflexivity|].
      destruct (PrimFloat.leb (fst (domain p)) w) eqn:E1;
        [destruct (PrimFloat.leb w (snd (domain p))) eqn:E2|].
      * split; assumption.
      * exfalso. apply Hne. rewrite (Hout p eq_refl); [reflexivity|].
        intros [H1 H2]. rewrite E2 in H2. discriminate H2.
      * exfalso. apply Hne. rewrite (Hout p eq_refl); [reflexivity|].
        intros [H1 H2]. rewrite E1 in H1. discriminate H1.
    + exfalso. apply Hne. now rewrite Hnone.
  - intros [p [Hp Hi]]. rewrite (Hin p Hp Hi). apply snoc_neq.
Qed.

Lemma demo_calibrated_proper (p : Polynomial) :
  _calibration (self Demo.calibrated) = Some p -> proper_domain p.
Proof. intros H. injection H as <-. reflexivity. Qed.

(** The identity calibration on [[500, 600]]: 550 goes out as 550.0 MHz,
    700 does not go out. *)
Lemma set_wavelength_gated_witness :
  tx (env (snd (set_wavelength Demo.exact_decimal_str Demo.horner_call 550%float 0
                               Demo.calibrated)))
  = [with_cr "Dds Frequency 0 550.0"] /\
  set_wavelength Demo.exact_decimal_str Demo.horner_call 700%float 0 Demo.calibrated
  = (Ok tt, Demo.calibrated).
Proof.
  split.
  - apply (proj1 (set_wavelength_gated Demo.exact_decimal_str Demo.horner_call
                    Demo.calibrated 1 550%float 0 ltac:(lia) eq_refl eq_refl eq_refl
                    demo_calibrated_proper)
                 _ eq_refl).
    split; reflexivity.
  - apply (proj1 (proj2 (proj2 (set_wavelength_gated Demo.exact_decimal_str
                    Demo.horner_call Demo.calibrated 1 700%float 0
                    ltac:(lia) eq_refl eq_refl eq_refl demo_calibrated_proper)))
                 _ eq_refl).
    intros [_ H]. discriminate H.
Defined.

(** A wavelength that is not a number lies in no interval, and yet passes
    the domain test: with the identity calibration on [[500, 600]] active
    the command goes out, carrying the polynomial's value at NaN. *)
Lemma set_wavelength_gated_counterexample :
  PrimFloat.leb 500%float nan = false /\
  PrimFloat.leb nan 600%float = false /\
  tx (env (snd (set_wavelength Demo.exact_decimal_str Demo.horner_call nan 0
                               Demo.calibrated)))
  = [with_cr "Dds Frequency 0 nan"].
Proof. repeat split. Qed.

(** ** The handle guard across the public methods *)

Lemma returning_raise {A} (f : A -> value) (m : M A) (s s' : sys) (e : exn) :
  m s = (Raise e, s') -> returning f m s = (Raise e, s').
Proof. intros H. unfold returning, bind. now rewrite H. Qed.

Lemma returning_ok {A} (f : A -> value) (m : M A) (s s' : sys) (a : A) :
  m s = (Ok a, s') -> returning f m s = (Ok (f a), s').
Proof. intros H. unfold returning, bind. now rewrite H. Qed.

Lemma query_closed (s : sys) (msg : string) :
  _handle (self s) = None -> query msg s = (Raise NotOpenError, s).
Proof.
  intros H. unfold query, bind at 1. now rewrite (_write_closed s _ H).
Qed.

Lemma set_acoustic_frequency_MHz_closed
    (float_str : float -> string) (s : sys) (f : float) (c : Z) :
  _nchannels (self s) = 8 -> _handle (self s) = None ->
  set_acoustic_frequency_MHz float_str f c s
  = (Raise NotOpenError,
     printed ("Dds Frequency " ++ str_int c ++ " " ++ float_str f) s).
Proof.
  intros Hn H. unfold set_acoustic_frequency_MHz, bind at 1.
  rewrite _check_channel_passes by lia. now rewrite (write_closed s _ H).
Qed.

Lemma set_acoustic_frequency_Hz_closed
    (float_str : float -> string) (s : sys) (f : float) (c : Z) :
  _nchannels (self s) = 8 -> _handle (self s) = None ->
  set_acoustic_frequency_Hz float_str f c s
  = (Raise NotOpenError,
     printed ("Dds Frequency " ++ str_int c ++ " !" ++ float_str f) s).
Proof.
  intros Hn H. unfold set_acoustic_frequency_Hz, bind at 1.
  rewrite _check_channel_passes by lia. now rewrite (write_closed s _ H).
Qed.

Lemma set_amplitude_int_closed
    (float_str : float -> string) (s : sys) (x : pynum) (c : Z) :
  _nchannels (self s) = 8 -> _handle (self s) = None ->
  set_amplitude_int float_str x c s
  = if contains (closed (PyInt 0) (PyInt (_amplitude_int_max (self s)))) x
    then (Raise NotOpenError,
          printed ("Dds Amplitude " ++ str_int c ++ " " ++ py_str float_str x) s)
    else (Ok tt, s).
Proof.
  intros Hn H. unfold set_amplitude_int, bind at 1.
  rewrite _check_channel_passes by lia. run_monad.
  destruct (contains _ x); [|reflexivity]. now rewrite (write_closed s _ H).
Qed.

Lemma set_wavelength_closed
    (float_str : float -> string) (Polynomial_call : Polynomial -> float -> float)
    (s : sys) (w : float) (c : Z) :
  _nchannels (self s) = 8 -> _handle (self s) = None ->
  set_wavelength float_str Polynomial_call w c s
  = match _calibration (self s) with
    | None => (Ok tt, s)
    | Some p =>
        if contains (closed (PyFloat (fst (domain p))) (PyFloat (snd (domain p))))
                    (PyFloat w)
        then (Raise NotOpenError,
              printed ("Dds Frequency " ++ str_int c ++ " "
                       ++ float_str (Polynomial_call p w)) s)
        else (Ok tt, s)
    end.
Proof.
  intros Hn H. unfold set_wavelength, bind at 1.
  rewrite _check_channel_passes by lia. run_monad.
  destruct (_calibration (self s)) as [p|]; [|reflexivity].
  destruct (contains _ (PyFloat w)); [|reflexivity].
  now rewrite set_acoustic_frequency_MHz_closed.
Qed.

(** An operator exception is one of the two [OverflowError]s. *)
Lemma scaled_error (amax : Z) (x : pynum) (e : exn) :
  scaled amax x = inl e -> exists msg, e = OverflowError msg.
Proof.
  unfold scaled, py_mul_error, py_truediv_error. intros H.
  destruct x as [z|f]; simpl in H.
  - destruct (PrimFloat.is_infinity (int_truediv (amax * z) 100));
      inversion H; subst; eexists; reflexivity.
  - destruct (int_too_large amax); [inversion H; subst; eexists; reflexivity|].
    simpl in H.
    destruct (int_too_large 100); inversion H; subst; eexists; reflexivity.
Qed.

(** The calibration assignment never touches the world or the handle; it
    returns, or raises what numpy raises on an entry without
    coefficients, the object then being as it was. *)
Lemma calibration_set_no_driver
    (table : gmap string calib_entry) (s : sys) (id : string) :
  calib_ids (self s) = map fst (map_to_list table) ->
  (exists a' : AOTF,
     calibration_set table id s = (Ok tt, mk_sys (env s) a') /\
     _handle a' = _handle (self s)) \/
  calibration_set table id s = (Raise EmptyCoefficientsError, s).
Proof.
  intros Hids. unfold calibration_set. run_monad. rewrite Hids.
  destruct (bool_decide_reflect (id ∈ map fst (map_to_list table))) as [Hin|Hnin].
  - apply calib_ids_lookup in Hin. destruct Hin as [e He]. rewrite He.
    destruct (coeffs e); [now right|].
    left. eexists. split; reflexivity.
  - left. exists (self s). destruct s; split; reflexivity.
Qed.

(** C4, as the class has it. While no handle is held, a public call other
    than [open] fails with [NotOpenError] exactly when it gets as far as
    the driver: [close], [get_controller_index], [query], [write],
    [get_serial], [get_date], [reset] and the frequency setters always;
    [set_amplitude_int] when the amplitude passes the range test, the
    percent setters when the scaled amplitude exists and passes it;
    [set_wavelength] when a calibration is active and the wavelength
    passes its domain test. In that case nothing was handed to the driver
    and no attribute changed. The calibration property and the gated
    setters outside their gate do not consult the handle: they never fail
    with [NotOpenError], and they leave the world, and the absence of a
    handle, as they were. They return normally, but for two refusals that
    come before any guard: numpy's [ValueError] for a table entry without
    coefficients, and the [OverflowError] of a percent amplitude too large
    to scale. The channel is an int the driver can take; the domain of
    the active calibration, if any, is an interval of numbers,
    [lo <= hi]. *)
Theorem handle_guard
    (float_str : float -> string) (Polynomial_call : Polynomial -> float -> float)
    (table : gmap string calib_entry) (s : sys) (o : operation) :
  configured table (self s) ->
  _handle (self s) = None ->
  is_open o = false ->
  plain_arguments o ->
  (forall p, _calibration (self s) = Some p -> proper_domain p) ->
  let r := call float_str Polynomial_call table o s in
  (reaches_driver (self s) o = true ->
     fst r = Raise NotOpenError /\
     tx (env (snd r)) = tx (env s) /\ self (snd r) = self s) /\
  (reaches_driver (self s) o = false ->
     fst r <> Raise NotOpenError /\
     ((exists v, fst r = Ok v) \/
      fst r = Raise EmptyCoefficientsError \/
      (exists msg, fst r = Raise (OverflowError msg))) /\
     env (snd r) = env s /\ _handle (self (snd r)) = None).
Proof.
  intros (Hn & Hids & _ & _) Hh Hop _ _ r. subst r.
  assert (Hok : forall (v : value) (s' : sys),
    env s' = env s -> _handle (self s') = None ->
    fst (Ok v, s') <> Raise NotOpenError /\
    ((exists v', fst (Ok v, s') = Ok v') \/
     fst (@Ok value v, s') = Raise EmptyCoefficientsError \/
     (exists msg, fst (@Ok value v, s') = Raise (OverflowError msg))) /\
    env (snd (Ok v, s')) = env s /\ _handle (self (snd (Ok v, s'))) = None).
  { intros v s' He Hs'. simpl.
    split; [discriminate|]. split; [left; eauto|]. now split. }
  destruct o; try discriminate Hop; simpl call; simpl reaches_driver.
  - (* close *)
    rewrite (returning_raise _ _ s s NotOpenError) by now apply close_closed.
    split; [intros _; repeat split | discriminate].
  - (* get_controller_index *)
    rewrite (returning_raise _ _ s s NotOpenError).
    + split; [intros _; repeat split | discriminate].
    + unfold get_controller_index, bind at 1. now rewrite (_check_handle_closed s Hh).
  - (* query *)
    rewrite (returning_raise _ _ s s NotOpenError) by now apply query_closed.
    split; [intros _; repeat split | discriminate].
  - (* write *)
    rewrite (returning_raise _ _ _ _ _ (write_closed s msg Hh)).
    split; [intros _; repeat split | discriminate].
  - (* get_serial *)
    rewrite (returning_raise _ _ s s NotOpenError) by now apply query_closed.
    split; [intros _; repeat split | discriminate].
  - (* get_date *)
    rewrite (returning_raise _ _ s s NotOpenError) by now apply query_closed.
    split; [intros _; repeat split | discriminate].
  - (* reset *)
    rewrite (returning_raise _ _ _ _ _ (write_closed s "dds reset" Hh)).
    split; [intros _; repeat split | discriminate].
  - (* set_acoustic_frequency *)
    rewrite (returning_raise _ _ _ _ _
               (set_acoustic_frequency_Hz_closed float_str s frequency channel Hn Hh)).
    split; [intros _; repeat split | discriminate].
  - (* set_acoustic_frequency_MHz *)
    rewrite (returning_raise _ _ _ _ _
               (set_acoustic_frequency_MHz_closed float_str s frequency channel Hn Hh)).
    split; [intros _; repeat split | discriminate].
  - (* set_acoustic_frequency_Hz *)
    rewrite (returning_raise _ _ _ _ _
               (set_acoustic_frequency_Hz_closed float_str s frequency channel Hn Hh)).
    split; [intros _; repeat split | discriminate].
  - (* calibration, read *)
    split; [discriminate | intros _]. unfold returning, calibration_get. run_monad.
    now apply Hok.
  - (* calibration, assigned *)
    split; [discriminate | intros _].
    destruct (calibration_set_no_driver table s calibration_id Hids)
      as [(a' & Hrun & Ha') | Hrun].
    + rewrite (returning_ok _ _ _ _ _ Hrun). apply Hok; [reflexivity | simpl; congruence].
    + rewrite (returning_raise _ _ _ _ _ Hrun). simpl.
      split; [discriminate|]. split; [now right; left|]. now split.
  - (* set_wavelength *)
    unfold returning, bind.
    rewrite (set_wavelength_closed float_str Polynomial_call s wavelength channel Hn Hh).
    destruct (_calibration (self s)) as [p|]; [destruct (contains _ (PyFloat wavelength))|].
    + split; [intros _; repeat split | discriminate].
    + split; [discriminate | intros _; now apply Hok].
    + split; [discriminate | intros _; now apply Hok].
  - (* set_amplitude_int *)
    unfold returning, bind.
    rewrite (set_amplitude_int_closed float_str s amplitude channel Hn Hh).
    destruct (contains _ amplitude).
    + split; [intros _; repeat split | discriminate].
    + split; [discriminate | intros _; now apply Hok].
  - (* set_amplitude_percent *)
    unfold returning, bind. rewrite set_amplitude_percent_run.
    destruct (scaled _ amplitude) as [e|y] eqn:Hscaled.
    + split; [discriminate | intros _]. simpl.
      destruct (scaled_error _ _ _ Hscaled) as [msg ->].
      split; [discriminate|]. split; [right; right; eauto|]. now split.
    + rewrite (set_amplitude_int_closed float_str s _ channel Hn Hh).
      destruct (contains _ _).
      * split; [intros _; repeat split | discriminate].
      * split; [discriminate | intros _; now apply Hok].
  - (* set_amplitude *)
    unfold returning, bind, set_amplitude. rewrite set_amplitude_percent_run.
    destruct (scaled _ amplitude) as [e|y] eqn:Hscaled.
    + split; [discriminate | intros _]. simpl.
      destruct (scaled_error _ _ _ Hscaled) as [msg ->].
      split; [discriminate|]. split; [right; right; eauto|]. now split.
    + rewrite (set_amplitude_int_closed float_str s _ channel Hn Hh).
      destruct (contains _ _).
      * split; [intros _; repeat split | discriminate].
      * split; [discriminate | intros _; now apply Hok].
Qed.

(** ** The polling loop *)

Lemma _check_message_done_pure (read msg : string) (s : sys) :
  _check_message_done read msg s = (Ok (message_done read msg), s).
Proof.
  unfold _check_message_done, message_done.
  destruct (split_crlf read) as [|first rest] eqn:E.
  - exfalso. now apply (split_crlf_nonempty read).
  - rewrite getitem_first, getitem_last.
    destruct (String.eqb first msg); reflexivity.
Qed.

Lemma _is_data_available_open (s : sys) (h : Z) :
  _handle (self s) = Some h ->
  _is_data_available s =
    match rx (env s) with
    | [] => (Ok false, s)
    | Quiet :: _ => (Ok false, popped s)
    | Chunk _ :: _ | Fault :: _ | Garbled _ :: _ => (Ok true, s)
    end.
Proof.
  intros H. unfold _is_data_available, bind at 1.
  rewrite (_check_handle_open s h H). unfold Dll.AotfIsReadDataAvailable. run_monad.
  unfold popped. destruct (rx (env s)) as [|[| | |] rest]; reflexivity.
Qed.

Lemma _read_open (s : sys) (h : Z) (length : Z) :
  _handle (self s) = Some h ->
  _read length s =
    match rx (env s) with
    | [] => (Ok "", s)
    | Quiet :: _ => (Ok "", popped s)
    | Chunk data :: _ => (Ok data, popped s)
    | Fault :: _ => (Raise TransportReadError, popped s)
    | Garbled reason :: _ => (Raise (UnicodeDecodeError reason), popped s)
    end.
Proof.
  intros H. unfold _read, bind at 1. rewrite (_check_handle_open s h H).
  unfold bind at 1. rewrite (_is_data_available_open s h H).
  unfold popped.
  destruct (rx (env s)) as [|[|data| |reason] rest] eqn:E; try reflexivity.
  - unfold Dll.AotfRead. run_monad. rewrite E. reflexivity.
  - unfold Dll.AotfRead. run_monad. rewrite E. reflexivity.
  - unfold Dll.AotfRead. run_monad. rewrite E. reflexivity.
Qed.

(** One pass through the body, by what the receive side holds. *)
Lemma _loop_read_body_open (s : sys) (h : Z) (msg read : string) :
  _handle (self s) = Some h ->
  _loop_read_body msg read s =
    match rx (env s) with
    | [] => (Ok (inr read), slept s)
    | Quiet :: _ => (Ok (inr read), slept (popped s))
    | Chunk data :: _ =>
        (Ok (if message_done (read ++ data) msg
             then inl (rstrip (CRLF ++ "* ") (lstrip (msg ++ CRLF) (read ++ data)))
             else inr (read ++ data)),
         popped s)
    | Fault :: _ => (Raise TransportReadError, popped s)
    | Garbled reason :: _ => (Raise (UnicodeDecodeError reason), popped s)
    end.
Proof.
  intros H. unfold _loop_read_body, bind at 1.
  rewrite (_is_data_available_open s h H).
  destruct (rx (env s)) as [|[|data| |reason] rest] eqn:E.
  - reflexivity.
  - reflexivity.
  - unfold bind at 1. rewrite (_read_open s h 256 H), E.
    unfold bind at 1. rewrite _check_message_done_pure.
    destruct (message_done (read ++ data) msg); reflexivity.
  - unfold bind at 1. rewrite (_read_open s h 256 H), E. reflexivity.
  - unfold bind at 1. rewrite (_read_open s h 256 H), E. reflexivity.
Qed.

Lemma _loop_read_body_closed (s : sys) (msg read : string) :
  _handle (self s) = None ->
  _loop_read_body msg read s = (Raise NotOpenError, s).
Proof.
  intros H. unfold _loop_read_body, bind at 1.
  unfold _is_data_available, bind at 1. now rewrite (_check_handle_closed s H).
Qed.

(** One iteration of the loop, in terms of its body. *)
Lemma _loop_read_from_step (fuel : nat) (msg : string) (start : Z) (read : string) (s : sys) :
  _loop_read_from (S fuel) msg start read s =
    match _loop_read_body msg read s with
    | (Ok (inl answer), s') => (Ok answer, s')
    | (Ok (inr read'), s') =>
        if clock (env s') - start >? 1000 * _timeout (self s') then (Ok "", s')
        else _loop_read_from fuel msg start read' s'
    | (Raise e, s') => (Raise e, s')
    | (Diverge, s') => (Diverge, s')
    end.
Proof.
  simpl. unfold bind at 1.
  destruct (_loop_read_body msg read s) as [[[answer|read']|e|] s']; try reflexivity.
  run_monad. destruct (clock (env s') - start >? 1000 * _timeout (self s')); reflexivity.
Qed.

Lemma sleeps_left_popped (start : Z) (s : sys) :
  sleeps_left start (popped s) = sleeps_left start s.
Proof. reflexivity. Qed.

Lemma sleeps_left_slept (start : Z) (s : sys) :
  clock (env (slept s)) - start <= 1000 * _timeout (self (slept s)) ->
  sleeps_left start s = S (sleeps_left start (slept s)).
Proof.
  unfold sleeps_left, slept. simpl. intros H.
  set (T := 1000 * _timeout (self s)) in *.
  set (e := clock (env s) - start).
  replace (T - (clock (env s) + 100 - start)) with (T - e - 100) in * by (subst e; lia).
  assert (He : e + 100 <= T) by (subst e; lia). clear H.
  generalize dependent e. intros e He.
  Z.to_euclidean_division_equations. lia.
Qed.

(** The fuel bound is never reached: [length rx + sleeps_left + 1]
    iterations always suffice. *)
Lemma _loop_read_from_total (fuel : nat) (msg : string) (start : Z) :
  forall (read : string) (s : sys),
    (List.length (rx (env s)) + sleeps_left start s < fuel)%nat ->
    fst (_loop_read_from fuel msg start read s) <> Diverge.
Proof.
  induction fuel as [|fuel IH]; intros read s Hfuel; [lia|].
  rewrite _loop_read_from_step.
  destruct (_handle (self s)) as [h|] eqn:Hh.
  2: { rewrite (_loop_read_body_closed s msg read Hh). discriminate. }
  rewrite (_loop_read_body_open s h msg read Hh).
  destruct (rx (env s)) as [|[|data| |reason] rest] eqn:E.
  - destruct (Z.gtb_spec (clock (env (slept s)) - start) (1000 * _timeout (self (slept s))))
      as [Hto|Hto]; [discriminate|].
    apply IH. rewrite (sleeps_left_slept start s Hto) in Hfuel.
    change (rx (env (slept s))) with (rx (env s)). rewrite E in *. simpl in *. lia.
  - destruct (Z.gtb_spec (clock (env (slept (popped s))) - start)
                         (1000 * _timeout (self (slept (popped s)))))
      as [Hto|Hto]; [discriminate|].
    apply IH.
    rewrite <- (sleeps_left_popped start s), (sleeps_left_slept start (popped s) Hto) in Hfuel.
    change (rx (env (slept (popped s)))) with (tl (rx (env s))). rewrite E. simpl in *. lia.
  - destruct (message_done (read ++ data) msg); [discriminate|].
    destruct (clock (env (popped s)) - start >? 1000 * _timeout (self (popped s)));
      [discriminate|].
    apply IH. rewrite sleeps_left_popped.
    change (rx (env (popped s))) with (tl (rx (env s))). rewrite E. simpl in *. lia.
  - discriminate.
  - discriminate.
Qed.

(** [_loop_read] always finishes: it returns or raises. *)
Lemma _loop_read_total (msg : string) (s : sys) :
  fst (_loop_read msg s) <> Diverge.
Proof.
  unfold _loop_read, bind, perf_counter.
  apply _loop_read_from_total. unfold loop_fuel, sleeps_left.
  rewrite Z.sub_diag, Z.sub_0_r. lia.
Qed.

(** No iteration touches the attributes of the object. *)
Lemma _loop_read_from_self (fuel : nat) (msg : string) (start : Z) :
  forall (read : string) (s : sys),
    self (snd (_loop_read_from fuel msg start read s)) = self s.
Proof.
  induction fuel as [|fuel IH]; intros read s; [reflexivity|].
  rewrite _loop_read_from_step.
  destruct (_handle (self s)) as [h|] eqn:Hh.
  2: { now rewrite (_loop_read_body_closed s msg read Hh). }
  rewrite (_loop_read_body_open s h msg read Hh).
  destruct (rx (env s)) as [|[|data| |reason] rest] eqn:E.
  - destruct (_ >? _); [reflexivity | now rewrite IH].
  - destruct (_ >? _); [reflexivity | now rewrite IH].
  - destruct (message_done (read ++ data) msg); [reflexivity|].
    destruct (_ >? _); [reflexivity | now rewrite IH].
  - reflexivity.
  - reflexivity.
Qed.

(** *** Timeout *)

(** With nothing but silence on the receive side and [k] sleeps to go
    before the deadline, the loop sleeps [k + 1] times and returns the
    empty string, 10100 ms after [start]. *)
Lemma _loop_read_from_idle (k : nat) :
  forall (fuel : nat) (msg : string) (start : Z) (read : string) (s : sys) (h : Z),
    _timeout (self s) = 10 ->
    _handle (self s) = Some h ->
    Forall (fun ev => ev = Quiet) (rx (env s)) ->
    clock (env s) - start = 10000 - 100 * Z.of_nat k ->
    (k < fuel)%nat ->
    exists s',
      _loop_read_from fuel msg start read s = (Ok "", s') /\
      clock (env s') = start + 10100 /\
      tx (env s') = tx (env s) /\
      self s' = self s.
Proof.
  induction k as [|k IH]; intros fuel msg start read s h Ht Hh Hq Hclock Hfuel;
    (destruct fuel as [|fuel]; [lia|]);
    rewrite _loop_read_from_step, (_loop_read_body_open s h msg read Hh).
  - (* the last sleep crosses the deadline *)
    destruct (rx (env s)) as [|[|data| |reason] rest] eqn:E;
      try (inversion Hq; discriminate).
    + simpl. rewrite Ht.
      destruct (Z.gtb_spec (clock (env s) + 100 - start) (1000 * 10)); [|lia].
      eexists. split; [reflexivity|]. simpl. repeat split. lia.
    + simpl. rewrite Ht.
      destruct (Z.gtb_spec (clock (env s) + 100 - start) (1000 * 10)); [|lia].
      eexists. split; [reflexivity|]. simpl. repeat split. lia.
  - destruct (rx (env s)) as [|[|data| |reason] rest] eqn:E;
      try (inversion Hq; discriminate).
    + simpl clock. simpl _timeout. rewrite Ht.
      destruct (Z.gtb_spec (clock (env s) + 100 - start) (1000 * 10)); [lia|].
      destruct (IH fuel msg start read (slept s) h) as (s' & Hrun & Hc & Htx & Hself);
        try assumption.
      * simpl. rewrite E. constructor.
      * simpl. lia.
      * lia.
      * exists s'. repeat split; assumption.
    + simpl clock. simpl _timeout. rewrite Ht.
      destruct (Z.gtb_spec (clock (env s) + 100 - start) (1000 * 10)); [lia|].
      destruct (IH fuel msg start read (slept (popped s)) h)
        as (s' & Hrun & Hc & Htx & Hself); try assumption.
      * simpl. rewrite E. simpl. now inversion Hq.
      * simpl. lia.
      * lia.
      * exists s'. repeat split; assumption.
Qed.

(** C3. If the device never has data, [query] on an open device returns
    the empty string: the loop ends, 10100 ms of clock time after the
    query began, which is the timeout plus one poll interval, having
    handed the driver the command and nothing else. *)
Theorem query_times_out (s : sys) (h : Z) (msg : string) :
  _timeout (self s) = 10 ->
  _handle (self s) = Some h ->
  AotfWrite (dll (env s)) h (Z.of_nat (String.length (with_cr msg))) (with_cr msg) <> 0 ->
  Forall (fun ev => ev = Quiet) (rx (env s)) ->
  exists s',
    query msg s = (Ok "", s') /\
    clock (env s') - clock (env s) = 10100 /\
    clock (env s') - clock (env s) <= 1000 * _timeout (self s) + 100 /\
    tx (env s') = (tx (env s) ++ [with_cr msg])%list.
Proof.
  intros Ht Hh Hw Hq.
  unfold query, bind at 1. rewrite (_write_open s h _ Hh).
  destruct (Z.eqb_spec (AotfWrite (dll (env s)) h
              (Z.of_nat (String.length (with_cr msg))) (with_cr msg)) 0);
    [contradiction|].
  unfold _loop_read, bind, perf_counter.
  destruct (_loop_read_from_idle 100 (loop_fuel (sent (with_cr msg) s)) msg
              (clock (env (sent (with_cr msg) s))) "" (sent (with_cr msg) s) h)
    as (s' & Hrun & Hc & Htx & Hself); try assumption.
  - lia.
  - unfold loop_fuel. simpl _timeout. rewrite Ht.
    change (Z.to_nat (1000 * 10 / 100)) with 100%nat. lia.
  - exists s'. rewrite Hrun. split; [reflexivity|].
    rewrite Hc, Ht, Htx. simpl. repeat split; lia.
Qed.

(** Three silent polls, then nothing: the serial query gives up at
    10100 ms. *)
Lemma query_times_out_witness :
  exists s',
    query "BoardId Serial" (Demo.opened [Quiet; Quiet; Quiet]) = (Ok "", s') /\
    clock (env s') - 0 = 10100.
Proof.
  destruct (query_times_out (Demo.opened [Quiet; Quiet; Quiet]) 1 "BoardId Serial")
    as (s' & Hrun & Hclock & _).
  - reflexivity.
  - reflexivity.
  - discriminate.
  - repeat constructor.
  - exists s'. split; [exact Hrun | exact Hclock].
Defined.

(** *** Framing *)

Lemma mem_append (c : ascii) (a b : string) : mem c (a ++ b) = mem c a || mem c b.
Proof.
  induction a as [|x a IH]; [reflexivity|].
  change (Ascii.eqb c x || mem c (a ++ b) = Ascii.eqb c x || mem c a || mem c b).
  rewrite IH. now rewrite orb_assoc.
Qed.

(** Leading characters that all belong to [chars] are stripped. *)
Lemma lstrip_append (chars p t : string) :
  (forall c, mem c p = true -> mem c chars = true) ->
  lstrip chars (p ++ t) = lstrip chars t.
Proof.
  induction p as [|x p IH]; intros Hall; [reflexivity|].
  change (lstrip chars (String x (p ++ t)) = lstrip chars t).
  simpl lstrip. rewrite (Hall x).
  - apply IH. intros c Hc. apply Hall. simpl. rewrite Hc. apply orb_true_r.
  - simpl. now rewrite Ascii.eqb_refl.
Qed.

(** The echoed command is the first line when it holds no ['\r\n']. *)
Lemma split_crlf_echo (msg t : string) :
  has_crlf msg = false ->
  split_crlf (msg ++ CRLF ++ t) = msg :: split_crlf t.
Proof.
  induction msg as [|c m IH]; intros Hno; [reflexivity|].
  change (split_crlf (String c (m ++ CRLF ++ t)) = String c m :: split_crlf t).
  destruct m as [|c' m'].
  - change (split_crlf (String c (String CR (String LF t)))
            = String c "" :: split_crlf t).
    change (split_crlf (String c (String CR (String LF t))))
      with (if Ascii.eqb c CR && Ascii.eqb CR LF
            then "" :: split_crlf (String LF t)
            else cons_first c (split_crlf (String CR (String LF t)))).
    change (Ascii.eqb CR LF) with false. rewrite andb_false_r. reflexivity.
  - change (has_crlf (String c (String c' m')))
      with ((Ascii.eqb c CR && Ascii.eqb c' LF) || has_crlf (String c' m')) in Hno.
    apply orb_false_elim in Hno. destruct Hno as [Hhere Hlater].
    change (split_crlf (String c (String c' m' ++ CRLF ++ t)))
      with (if Ascii.eqb c CR && Ascii.eqb c' LF
            then "" :: split_crlf (m' ++ CRLF ++ t)
            else cons_first c (split_crlf (String c' m' ++ CRLF ++ t))).
    rewrite Hhere, (IH Hlater). reflexivity.
Qed.

(** After the echo alone the exchange is not complete: the last line is
    empty. *)
Lemma message_done_echo (msg : string) :
  has_crlf msg = false -> message_done (msg ++ CRLF) msg = false.
Proof.
  intros Hno. unfold message_done.
  replace (msg ++ CRLF) with (msg ++ CRLF ++ "") by reflexivity.
  rewrite (split_crlf_echo msg "" Hno). simpl. apply andb_false_r.
Qed.

(** With the answer line and a closing line that holds the asterisk, it
    is. *)
Lemma message_done_answer (msg : string) :
  has_crlf msg = false ->
  message_done ((msg ++ CRLF) ++ "done" ++ CRLF ++ "*") msg = true.
Proof.
  intros Hno. unfold message_done.
  rewrite append_assoc, (split_crlf_echo msg _ Hno).
  change (split_crlf ("done" ++ CRLF ++ "*")) with ["done"; "*"].
  simpl. rewrite String.eqb_refl. reflexivity.
Qed.

Lemma strip_answer (msg : string) :
  mem "d"%char msg = false ->
  rstrip (CRLF ++ "* ")
         (lstrip (msg ++ CRLF) ((msg ++ CRLF) ++ "done" ++ CRLF ++ "*"))
  = "done".
Proof.
  intros Hd. rewrite lstrip_append by auto.
  change ("done" ++ CRLF ++ "*") with (String "d"%char ("one" ++ CRLF ++ "*")).
  simpl lstrip. rewrite mem_append, Hd. reflexivity.
Qed.

(** C1, as the class has it. Let the command [msg] hold no ['\r\n'] and
    no letter [d]. If the device echoes [msg] followed by ['\r\n'] and then
    sends ['done\r\n*'], the asterisk line being the last and unterminated
    line of the buffer, then [query msg] on an open device returns exactly
    ['done']: both reads are used up, no sleep takes place, and the driver
    was handed the command. *)
Theorem query_framing (s : sys) (h : Z) (msg : string) (rest : list rx_event) :
  _timeout (self s) = 10 ->
  _handle (self s) = Some h ->
  AotfWrite (dll (env s)) h (Z.of_nat (String.length (with_cr msg))) (with_cr msg) <> 0 ->
  has_crlf msg = false ->
  mem "d"%char msg = false ->
  rx (env s) = Chunk (msg ++ CRLF) :: Chunk ("done" ++ CRLF ++ "*") :: rest ->
  exists s',
    query msg s = (Ok "done", s') /\
    rx (env s') = rest /\
    clock (env s') = clock (env s) /\
    tx (env s') = (tx (env s) ++ [with_cr msg])%list.
Proof.
  intros Ht Hh Hw Hno Hd Hrx.
  unfold query, bind at 1. rewrite (_write_open s h _ Hh).
  destruct (Z.eqb_spec (AotfWrite (dll (env s)) h
              (Z.of_nat (String.length (with_cr msg))) (with_cr msg)) 0);
    [contradiction|].
  set (s1 := sent (with_cr msg) s).
  unfold _loop_read, bind, perf_counter.
  assert (Hfuel : exists fuel, loop_fuel s1 = S (S fuel)).
  { unfold loop_fuel. subst s1. simpl rx. rewrite Hrx. simpl List.length.
    eexists. rewrite Nat.add_1_r. simpl. reflexivity. }
  destruct Hfuel as [fuel ->].
  (* first pass: the echo *)
  rewrite _loop_read_from_step, (_loop_read_body_open s1 h msg "" Hh).
  subst s1. simpl rx. rewrite Hrx.
  change ("" ++ (msg ++ CRLF)) with (msg ++ CRLF).
  rewrite (message_done_echo msg Hno).
  simpl clock. simpl _timeout. rewrite Ht.
  destruct (Z.gtb_spec (clock (env s) - clock (env s)) (1000 * 10)); [lia|].
  (* second pass: the answer *)
  rewrite _loop_read_from_step.
  rewrite (_loop_read_body_open (popped (sent (with_cr msg) s)) h msg (msg ++ CRLF) Hh).
  simpl rx. rewrite Hrx. simpl tl. cbv beta iota.
  rewrite (message_done_answer msg Hno), (strip_answer msg Hd).
  eexists. split; [reflexivity|]. simpl. rewrite Hrx. repeat split.
Qed.

(** The command ["status"], echoed and answered. *)
Lemma query_framing_witness :
  exists s',
    query "status"
          (Demo.opened [Chunk ("status" ++ CRLF); Chunk ("done" ++ CRLF ++ "*")])
    = (Ok "done", s') /\
    rx (env s') = [].
Proof.
  destruct (query_framing
              (Demo.opened [Chunk ("status" ++ CRLF); Chunk ("done" ++ CRLF ++ "*")])
              1 "status" [])
    as (s' & Hrun & Hrx & _); try reflexivity.
  - discriminate.
  - exists s'. split; [exact Hrun | exact Hrx].
Defined.

(** C1 as stated fails. When the closing line is ['*\r\n'], the buffer
    ends in an empty last line after the split, completion is never
    detected, and [query] returns the empty string at the timeout. *)
Lemma query_framing_counterexample :
  query "status"
        (Demo.opened [Chunk ("status" ++ CRLF); Chunk ("done" ++ CRLF ++ "*" ++ CRLF)])
  = (Ok "",
     mk_sys (mk_world Demo.dll_ok [] [with_cr "status"] [] 10100)
            (with_handle (Some 1) (__init__ Demo.table))).
Proof. vm_compute. reflexivity. Qed.

(** The character-set reading of [lstrip] shows on the class's own
    commands: with the framing the loop expects, the answer ['done'] to
    ['BoardId Date'] comes back as ['ne']. *)
Example query_lstrip_eats_answer :
  fst (query "BoardId Date"
         (Demo.opened [Chunk ("BoardId Date" ++ CRLF); Chunk ("done" ++ CRLF ++ "*")]))
  = Ok "ne".
Proof. vm_compute. reflexivity. Qed.

(** ** The handle guard, on examples *)

(** The example objects are configured. *)
Lemma demo_configured (script : list rx_event) :
  configured Demo.table (self (Demo.fresh script)).
Proof. repeat split. Qed.

Lemma c_int_0 : c_int 0.
Proof. unfold c_int. lia. Qed.

Lemma demo_fresh_proper (script : list rx_event) (p : Polynomial) :
  _calibration (self (Demo.fresh script)) = Some p -> proper_domain p.
Proof. discriminate. Qed.

(** Before [open]: the serial query fails with [NotOpenError]; an
    out-of-range amplitude returns, and so does a percent amplitude of
    [2^63], whose scaled value is far beyond the range. *)
Lemma handle_guard_witness :
  fst (call Demo.exact_decimal_str Demo.horner_call Demo.table op_get_serial (Demo.fresh []))
  = Raise NotOpenError /\
  (exists v,
     fst (call Demo.exact_decimal_str Demo.horner_call Demo.table
               (op_set_amplitude_int (PyInt 20000) 0) (Demo.fresh []))
     = Ok v) /\
  env (snd (call Demo.exact_decimal_str Demo.horner_call Demo.table
                 (op_set_amplitude_percent (PyInt (2 ^ 63)) 0) (Demo.fresh [])))
  = env (Demo.fresh []).
Proof.
  split; [|split].
  - apply (proj1 (handle_guard Demo.exact_decimal_str Demo.horner_call Demo.table
                    (Demo.fresh []) op_get_serial (demo_configured [])
                    eq_refl eq_refl I (demo_fresh_proper []))).
    reflexivity.
  - destruct (proj2 (handle_guard Demo.exact_decimal_str Demo.horner_call Demo.table
                       (Demo.fresh []) (op_set_amplitude_int (PyInt 20000) 0)
                       (demo_configured []) eq_refl eq_refl c_int_0
                       (demo_fresh_proper []))
                    eq_refl)
      as (_ & [Hok | [Hno | [msg Hno]]] & _).
    + exact Hok.
    + discriminate Hno.
    + discriminate Hno.
  - apply (proj2 (handle_guard Demo.exact_decimal_str Demo.horner_call Demo.table
                    (Demo.fresh []) (op_set_amplitude_percent (PyInt (2 ^ 63)) 0)
                    (demo_configured []) eq_refl eq_refl c_int_0
                    (demo_fresh_proper []))
                 eq_refl).
Defined.

(** C4 as stated fails. Before [open], assigning the calibration, reading
    it, an out-of-range amplitude and a wavelength without calibration all
    complete without [NotOpenError]. *)
Lemma handle_guard_counterexample :
  _handle (self (Demo.fresh [])) = None /\
  fst (call Demo.exact_decimal_str Demo.horner_call Demo.table
            (op_calibration_set "RF1") (Demo.fresh []))
  = Ok VNone /\
  fst (call Demo.exact_decimal_str Demo.horner_call Demo.table
            op_calibration_get (Demo.fresh []))
  = Ok (VPoly None) /\
  fst (call Demo.exact_decimal_str Demo.horner_call Demo.table
            (op_set_amplitude_int (PyInt 20000) 0) (Demo.fresh []))
  = Ok VNone /\
  fst (call Demo.exact_decimal_str Demo.horner_call Demo.table
            (op_set_wavelength 532%float 0) (Demo.fresh []))
  = Ok VNone.
Proof. repeat split. Qed.

(** ** Every public call finishes and keeps the settings *)

Lemma same_settings_refl (a : AOTF) : same_settings a a.
Proof. repeat split. Qed.

Lemma same_settings_trans (a b c : AOTF) :
  same_settings a b -> same_settings b c -> same_settings a c.
Proof.
  intros (H1 & H2 & H3 & H4) (K1 & K2 & K3 & K4).
  repeat split; congruence.
Qed.

Lemma well_behaved_ret {A} (a : A) : well_behaved (ret a).
Proof. intros s. split; [discriminate | apply same_settings_refl]. Qed.

Lemma well_behaved_raise {A} (e : exn) : well_behaved (@raise A e).
Proof. intros s. split; [discriminate | apply same_settings_refl]. Qed.

Lemma well_behaved_gets {A} (f : AOTF -> A) : well_behaved (gets f).
Proof. intros s. split; [discriminate | apply same_settings_refl]. Qed.

Lemma well_behaved_modify_env (f : world -> world) : well_behaved (modify_env f).
Proof. intros s. split; [discriminate | apply same_settings_refl]. Qed.

Lemma well_behaved_with_handle (h : option Z) :
  well_behaved (modify_self (with_handle h)).
Proof. intros s. split; [discriminate | repeat split]. Qed.

Lemma well_behaved_with_calibration (p : option Polynomial) :
  well_behaved (modify_self (with_calibration p)).
Proof. intros s. split; [discriminate | repeat split]. Qed.

Lemma well_behaved_bind {A B} (m : M A) (k : A -> M B) :
  well_behaved m -> (forall a, well_behaved (k a)) -> well_behaved (bind m k).
Proof.
  intros Hm Hk s. unfold bind. specialize (Hm s).
  destruct (m s) as [[a| e |] s'] eqn:E; simpl in Hm; destruct Hm as [Hfin Hset].
  - destruct (Hk a s') as [Hfin' Hset']. split; [exact Hfin'|].
    eapply same_settings_trans; eassumption.
  - split; [discriminate | exact Hset].
  - contradiction.
Qed.

Lemma well_behaved_if {A} (b : bool) (m1 m2 : M A) :
  well_behaved m1 -> well_behaved m2 -> well_behaved (if b then m1 else m2).
Proof. destruct b; auto. Qed.

Lemma well_behaved_dll_open (i : Z) : well_behaved (Dll.AotfOpen i).
Proof. intros s. split; [discriminate | apply same_settings_refl]. Qed.

Lemma well_behaved_dll_close (h : Z) : well_behaved (Dll.AotfClose h).
Proof. intros s. split; [discriminate | apply same_settings_refl]. Qed.

Lemma well_behaved_dll_instance (h : Z) : well_behaved (Dll.AotfGetInstance h).
Proof. intros s. split; [discriminate | apply same_settings_refl]. Qed.

Lemma well_behaved_dll_write (h len : Z) (buffer : string) :
  well_behaved (Dll.AotfWrite h len buffer).
Proof. intros s. split; [discriminate | apply same_settings_refl]. Qed.

Lemma well_behaved_dll_available (h : Z) :
  well_behaved (Dll.AotfIsReadDataAvailable h).
Proof.
  intros s. unfold Dll.AotfIsReadDataAvailable.
  destruct (rx (env s)) as [|[| | |] rest];
    (split; [discriminate | apply same_settings_refl]).
Qed.

Lemma well_behaved_dll_read (h length : Z) : well_behaved (Dll.AotfRead h length).
Proof.
  intros s. unfold Dll.AotfRead.
  destruct (rx (env s)) as [|[| | |] rest];
    (split; [discriminate | apply same_settings_refl]).
Qed.

Lemma well_behaved_checked {A} (error : option exn) (result : A) :
  well_behaved (checked error result).
Proof.
  destruct error; intros s; (split; [discriminate | apply same_settings_refl]).
Qed.

Lemma well_behaved_Polynomial_new (coef : list float) (domain window : float * float) :
  well_behaved (Polynomial_new coef domain window).
Proof.
  destruct coef; intros s; (split; [discriminate | apply same_settings_refl]).
Qed.

Lemma well_behaved_loop_read (msg : string) : well_behaved (_loop_read msg).
Proof.
  intros s. split; [apply _loop_read_total|].
  unfold _loop_read, bind, perf_counter.
  rewrite _loop_read_from_self. apply same_settings_refl.
Qed.

Create HintDb behaved.

#[local] Hint Resolve well_behaved_ret well_behaved_raise well_behaved_gets
  well_behaved_modify_env well_behaved_with_handle well_behaved_with_calibration
  well_behaved_dll_open well_behaved_dll_close well_behaved_dll_instance
  well_behaved_dll_write well_behaved_dll_available well_behaved_dll_read
  well_behaved_checked well_behaved_Polynomial_new
  well_behaved_loop_read : behaved.

(** Take a method apart along its binds and branches. *)
Ltac behaved :=
  repeat first
    [ progress auto with behaved
    | apply well_behaved_bind; [|intros ?]
    | apply well_behaved_if
    | match goal with
      | |- well_behaved (match ?x with _ => _ end) => destruct x
      end ].

Lemma well_behaved_check_handle : well_behaved _check_handle.
Proof. unfold _check_handle. behaved. Qed.

#[local] Hint Resolve well_behaved_check_handle : behaved.

Lemma well_behaved_write_ (message : string) : well_behaved (_write message).
Proof. unfold _write. behaved. Qed.

#[local] Hint Resolve well_behaved_write_ : behaved.

Lemma well_behaved_write (msg : string) : well_behaved (write msg).
Proof. unfold write, print. behaved. Qed.

Lemma well_behaved_query (msg : string) : well_behaved (query msg).
Proof. unfold query. behaved. Qed.

Lemma well_behaved_check_channel (c : Z) : well_behaved (_check_channel c).
Proof. unfold _check_channel. behaved. Qed.

#[local] Hint Resolve well_behaved_write well_behaved_query
  well_behaved_check_channel : behaved.

Lemma well_behaved_set_amplitude_int
    (float_str : float -> string) (x : pynum) (c : Z) :
  well_behaved (set_amplitude_int float_str x c).
Proof. unfold set_amplitude_int. behaved. Qed.

#[local] Hint Resolve well_behaved_set_amplitude_int : behaved.

(** Whatever the state and the arguments, a public call returns or
    raises, and the channel count, the calibration ids, the timeout and
    the amplitude maximum are afterwards what they were. *)
Lemma call_well_behaved
    (float_str : float -> string) (Polynomial_call : Polynomial -> float -> float)
    (table : gmap string calib_entry) (o : operation) :
  well_behaved (call float_str Polynomial_call table o).
Proof.
  destruct o; unfold call, returning;
    unfold open, close, get_controller_index, get_serial, get_date, reset,
      set_acoustic_frequency, set_acoustic_frequency_MHz, set_acoustic_frequency_Hz,
      calibration_get, calibration_set, set_wavelength, set_amplitude,
      set_amplitude_percent;
    behaved.
Qed.

Lemma init_configured (table : gmap string calib_entry) :
  configured table (__init__ table).
Proof. repeat split. Qed.

(** Once configured, always configured. *)
Lemma call_keeps_configured
    (float_str : float -> string) (Polynomial_call : Polynomial -> float -> float)
    (table : gmap string calib_entry) (o : operation) (s : sys) :
  configured table (self s) ->
  configured table (self (snd (call float_str Polynomial_call table o s))).
Proof.
  intros (H1 & H2 & H3 & H4).
  destruct (call_well_behaved float_str Polynomial_call table o s)
    as [_ (K1 & K2 & K3 & K4)].
  repeat split; congruence.
Qed.

(** ** Opening, and a whole session *)

Lemma open_spec (s : sys) (controller_index : Z) :
  open controller_index s =
    if AotfOpen (dll (env s)) controller_index =? 0
    then (Raise (DeviceOpenError controller_index), s)
    else (Ok tt,
          mk_sys (env s)
                 (with_handle (Some (AotfOpen (dll (env s)) controller_index)) (self s))).
Proof.
  unfold open, Dll.AotfOpen. run_monad.
  now destruct (AotfOpen (dll (env s)) controller_index =? 0).
Qed.

(** In a configured object the channel test rejects nothing, so
    [set_acoustic_frequency_Hz] never fails with [InvalidChannelError]. *)
Lemma set_acoustic_frequency_Hz_never_rejects
    (float_str : float -> string) (s : sys) (f : float) (c : Z) :
  _nchannels (self s) = 8 ->
  fst (set_acoustic_frequency_Hz float_str f c s) <> Raise (InvalidChannelError 8).
Proof.
  intros Hn. unfold set_acoustic_frequency_Hz, bind at 1.
  rewrite _check_channel_passes by lia.
  destruct (_handle (self s)) as [h|] eqn:Hh.
  - rewrite (write_open s h _ Hh). simpl. destruct (_ =? 0); discriminate.
  - rewrite (write_closed s _ Hh). discriminate.
Qed.

(** A session against a device that answers the serial query with
    ['12345'] and the prompt ['* ']: open, read the serial, set 200 MHz on
    channel 3, close, and ask for the serial again. *)
Example session :
  let device := [Chunk ("BoardId Serial" ++ CRLF ++ "12345" ++ CRLF ++ "* ")] in
  let first :=
    (do open 0 then get_serial) (Demo.fresh device) in
  let second :=
    (do set_acoustic_frequency_MHz Demo.exact_decimal_str 200%float 3 then
     do close then get_serial) (snd first) in
  fst first = Ok "12345" /\
  fst second = Raise NotOpenError /\
  tx (env (snd second)) = [with_cr "BoardId Serial"; with_cr "Dds Frequency 3 200.0"] /\
  _handle (self (snd second)) = None.
Proof. vm_compute. repeat split. Qed.

(** * Further properties of the class *)

(** ** Opening and closing *)

(** [open]: when the driver returns [0] the call fails with
    [DeviceOpenError] and the state, a handle stored earlier included, is
    as before; otherwise the returned handle is stored, in place of any
    earlier one, and nothing else changes. *)
Theorem open_outcomes (s : sys) (controller_index : Z) :
  (AotfOpen (dll (env s)) controller_index = 0 ->
   open controller_index s = (Raise (DeviceOpenError controller_index), s)) /\
  (AotfOpen (dll (env s)) controller_index <> 0 ->
   open controller_index s
   = (Ok tt,
      mk_sys (env s)
             (with_handle (Some (AotfOpen (dll (env s)) controller_index)) (self s))) /\
   _handle (self (snd (open controller_index s)))
   = Some (AotfOpen (dll (env s)) controller_index)).
Proof.
  rewrite open_spec. split.
  - intros ->. reflexivity.
  - intros Hret.
    destruct (Z.eqb_spec (AotfOpen (dll (env s)) controller_index) 0);
      [contradiction | split; reflexivity].
Qed.

(** Controller 0 opens as handle 1; on an open object the new handle
    replaces the old one. *)
Lemma open_outcomes_witness :
  _handle (self (snd (open 0 (Demo.fresh [])))) = Some 1 /\
  _handle (self (snd (open 5 (Demo.opened [])))) = Some 6.
Proof.
  split.
  - apply (proj2 (open_outcomes (Demo.fresh []) 0)). discriminate.
  - apply (proj2 (open_outcomes (Demo.opened []) 5)). discriminate.
Defined.

Lemma with_handle_restore (a : AOTF) (h : option Z) :
  with_handle (_handle a) (with_handle h a) = a.
Proof. destruct a; reflexivity. Qed.

(** [open] followed by [close], both accepted by the driver, brings an
    object that held no handle back to the state it started from; a second
    [close] then fails with [NotOpenError]. *)
Theorem open_close_round_trip (s : sys) (controller_index : Z) :
  _handle (self s) = None ->
  AotfOpen (dll (env s)) controller_index <> 0 ->
  AotfClose (dll (env s)) (AotfOpen (dll (env s)) controller_index) <> 0 ->
  (do open controller_index then close) s = (Ok tt, s) /\
  (do open controller_index then do close then close) s = (Raise NotOpenError, s).
Proof.
  intros Hnone Hopen Hclose.
  assert (Hfirst : (do open controller_index then close) s = (Ok tt, s)).
  { unfold bind at 1. rewrite open_spec.
    destruct (Z.eqb_spec (AotfOpen (dll (env s)) controller_index) 0); [contradiction|].
    rewrite (close_open _ (AotfOpen (dll (env s)) controller_index)) by reflexivity.
    simpl dll.
    destruct (Z.eqb_spec (AotfClose (dll (env s))
                (AotfOpen (dll (env s)) controller_index)) 0); [contradiction|].
    simpl. rewrite <- Hnone at 1. rewrite with_handle_restore. now destruct s. }
  split; [exact Hfirst|].
  unfold bind at 1. rewrite open_spec.
  destruct (Z.eqb_spec (AotfOpen (dll (env s)) controller_index) 0); [contradiction|].
  unfold bind at 1.
  rewrite (close_open _ (AotfOpen (dll (env s)) controller_index)) by reflexivity.
  simpl dll.
  destruct (Z.eqb_spec (AotfClose (dll (env s))
              (AotfOpen (dll (env s)) controller_index)) 0); [contradiction|].
  rewrite close_closed by reflexivity.
  simpl. rewrite <- Hnone at 1. rewrite with_handle_restore. now destruct s.
Qed.

Lemma open_close_round_trip_witness :
  (do open 0 then close) (Demo.fresh []) = (Ok tt, Demo.fresh []).
Proof.
  apply (proj1 (open_close_round_trip (Demo.fresh []) 0 eq_refl
                  ltac:(discriminate) ltac:(discriminate))).
Defined.

(** ** Writing without waiting *)

(** [write] prints the message whether or not a handle is held, never
    reads and never waits. Without a handle it fails with [NotOpenError]
    and hands the driver nothing; with one it hands the driver the message
    followed by a carriage return, once, and fails with
    [TransportWriteError] exactly when the driver returns [0]. *)
Theorem write_effects (s : sys) (msg : string) :
  let r := write msg s in
  stdout (env (snd r)) = (stdout (env s) ++ [msg])%list /\
  rx (env (snd r)) = rx (env s) /\
  clock (env (snd r)) = clock (env s) /\
  self (snd r) = self s /\
  (_handle (self s) = None ->
   fst r = Raise NotOpenError /\ tx (env (snd r)) = tx (env s)) /\
  (forall h, _handle (self s) = Some h ->
   tx (env (snd r)) = (tx (env s) ++ [with_cr msg])%list /\
   (AotfWrite (dll (env s)) h (Z.of_nat (String.length (with_cr msg))) (with_cr msg) = 0 ->
    fst r = Raise TransportWriteError) /\
   (AotfWrite (dll (env s)) h (Z.of_nat (String.length (with_cr msg))) (with_cr msg) <> 0 ->
    fst r = Ok tt)).
Proof.
  intros r. subst r.
  destruct (_handle (self s)) as [h|] eqn:Hh.
  - rewrite (write_open s h msg Hh).
    do 4 (split; [reflexivity|]). split; [discriminate|].
    intros h' Hh'. injection Hh' as <-. simpl.
    split; [reflexivity|]. split.
    + intros ->. reflexivity.
    + intros Hret.
      now destruct (Z.eqb_spec (AotfWrite (dll (env s)) h
                      (Z.of_nat (String.length (with_cr msg))) (with_cr msg)) 0).
  - rewrite (write_closed s msg Hh).
    do 4 (split; [reflexivity|]). split; [|discriminate].
    intros _. split; reflexivity.
Qed.

(** [reset] on an open device sends ['dds reset\r']; before [open] it only
    prints. *)
Lemma write_effects_witness :
  tx (env (snd (reset (Demo.opened [Chunk "pending"])))) = [with_cr "dds reset"] /\
  fst (reset (Demo.fresh [])) = Raise NotOpenError /\
  stdout (env (snd (reset (Demo.fresh [])))) = ["dds reset"].
Proof.
  split; [|split].
  - apply (proj1 (proj2 (proj2 (proj2 (proj2 (proj2
             (write_effects (Demo.opened [Chunk "pending"]) "dds reset"))))) 1 eq_refl)).
  - apply (proj1 (proj1 (proj2 (proj2 (proj2 (proj2
             (write_effects (Demo.fresh []) "dds reset"))))) eq_refl)).
  - apply (proj1 (write_effects (Demo.fresh []) "dds reset")).
Defined.

(** ** Calibration, assigned and used *)

Lemma set_wavelength_open
    (float_str : float -> string) (Polynomial_call : Polynomial -> float -> float)
    (s : sys) (w : float) (c : Z) :
  _nchannels (self s) = 8 ->
  set_wavelength float_str Polynomial_call w c s =
    match _calibration (self s) with
    | None => (Ok tt, s)
    | Some p =>
        if PrimFloat.is_nan w
           || (PrimFloat.leb (fst (domain p)) w && PrimFloat.leb w (snd (domain p)))
        then write ("Dds Frequency " ++ str_int c ++ " "
                    ++ float_str (Polynomial_call p w)) s
        else (Ok tt, s)
    end.
Proof.
  intros Hn. rewrite (set_wavelength_run float_str Polynomial_call s w c Hn).
  destruct (_calibration (self s)) as [p|]; [|reflexivity].
  destruct (PrimFloat.is_nan w
            || (PrimFloat.leb (fst (domain p)) w && PrimFloat.leb w (snd (domain p))));
    [|reflexivity].
  unfold set_acoustic_frequency_MHz, bind at 1.
  now rewrite _check_channel_passes by lia.
Qed.

(** The assignment of a key the table holds, by whether the entry has
    coefficients. *)
Lemma calibration_set_known
    (table : gmap string calib_entry) (s : sys) (id : string) (e : calib_entry) :
  calib_ids (self s) = map fst (map_to_list table) ->
  table !! id = Some e ->
  calibration_set table id s
  = match coeffs e with
    | [] => (Raise EmptyCoefficientsError, s)
    | _ :: _ =>
        (Ok tt,
         mk_sys (env s)
                (with_calibration
                   (Some (mk_Polynomial (coeffs e) (entry_domain e) (entry_domain e)))
                   (self s)))
    end.
Proof.
  intros Hids He. unfold calibration_set. run_monad. rewrite Hids.
  rewrite bool_decide_eq_true_2 by (apply calib_ids_lookup; eauto).
  rewrite He. now destruct (coeffs e).
Qed.

(** Assigning a known key and then setting a wavelength on a valid
    channel, on an open device. An entry without coefficients stops the sequence at the
    assignment, with numpy's [ValueError] and the state as it was. For any
    other entry, its domain an interval of numbers [lo <= hi], the new
    calibration is active afterwards whatever was active before; a
    wavelength inside the entry's domain, or one that is not a number,
    sends the frequency of the entry's polynomial; a number outside the
    domain sends nothing. *)
Theorem calibration_then_wavelength
    (float_str : float -> string) (Polynomial_call : Polynomial -> float -> float)
    (table : gmap string calib_entry)
    (s : sys) (h : Z) (id : string) (e : calib_entry) (w : float) (c : Z) :
  0 <= c < 8 ->
  configured table (self s) ->
  _handle (self s) = Some h ->
  table !! id = Some e ->
  let p := mk_Polynomial (coeffs e) (entry_domain e) (entry_domain e) in
  let r := (do calibration_set table id then
            set_wavelength float_str Polynomial_call w c) s in
  (coeffs e = [] -> r = (Raise EmptyCoefficientsError, s)) /\
  (coeffs e <> [] -> proper_domain p ->
   _calibration (self (snd r)) = Some p /\
   (PrimFloat.is_nan w = true \/
    (PrimFloat.leb (fst (entry_domain e)) w = true /\
     PrimFloat.leb w (snd (entry_domain e)) = true) ->
    tx (env (snd r))
    = (tx (env s)
         ++ [with_cr ("Dds Frequency " ++ str_int c ++ " "
                      ++ float_str (Polynomial_call p w))%string])%list) /\
   (PrimFloat.is_nan w = false ->
    PrimFloat.leb (fst (entry_domain e)) w && PrimFloat.leb w (snd (entry_domain e)) = false ->
    fst r = Ok tt /\ env (snd r) = env s)).
Proof.
  intros _ (Hn & Hids & _ & _) Hh He p r.
  split.
  { intros Hnil. subst r. unfold bind.
    now rewrite (calibration_set_known table s id e Hids He), Hnil. }
  intros Hcoef _.
  set (s1 := mk_sys (env s) (with_calibration (Some p) (self s))).
  assert (Hr : r =
    if PrimFloat.is_nan w
       || (PrimFloat.leb (fst (entry_domain e)) w && PrimFloat.leb w (snd (entry_domain e)))
    then write ("Dds Frequency " ++ str_int c ++ " "
                ++ float_str (Polynomial_call p w)) s1
    else (Ok tt, s1)).
  { subst r. unfold bind.
    rewrite (calibration_set_known table s id e Hids He).
    destruct (coeffs e) as [|c0 cs] eqn:Ec; [contradiction|].
    fold p. fold s1. now rewrite set_wavelength_open by exact Hn. }
  rewrite Hr. clear Hr.
  destruct (PrimFloat.is_nan w) eqn:E0;
    destruct (PrimFloat.leb (fst (entry_domain e)) w) eqn:E1;
    destruct (PrimFloat.leb w (snd (entry_domain e))) eqn:E2;
    simpl andb; simpl orb; cbv iota;
    try (rewrite (write_open s1 h) by exact Hh;
         split; [reflexivity|]; split; [reflexivity | intros; discriminate]).
  - split; [reflexivity|]. split; [intros [H | [H1 H2]]; discriminate | now split].
  - split; [reflexivity|]. split; [intros [H | [H1 H2]]; discriminate | now split].
  - split; [reflexivity|]. split; [intros [H | [H1 H2]]; discriminate | now split].
Qed.

(** From a fresh open object: assign ["RF1"], ask for 550. *)
Lemma calibration_then_wavelength_witness :
  tx (env (snd ((do calibration_set Demo.table "RF1" then
                 set_wavelength Demo.exact_decimal_str Demo.horner_call 550%float 0)
                  (Demo.opened []))))
  = [with_cr "Dds Frequency 0 550.0"].
Proof.
  apply (proj1 (proj2 (proj2 (calibration_then_wavelength
           Demo.exact_decimal_str Demo.horner_call
           Demo.table (Demo.opened []) 1 "RF1"
           (mk_entry [0%float; 1%float] (500%float, 600%float)) 550%float 0
           ltac:(lia) (init_configured Demo.table) eq_refl eq_refl)
           ltac:(discriminate) eq_refl))).
  right. split; reflexivity.
Defined.

(** ** More on strings: what stripping and splitting guarantee *)

(** The last character of a string. *)
Fixpoint last_char (s : string) : option ascii :=
  match s with
  | EmptyString => None
  | String c EmptyString => Some c
  | String _ s' => last_char s'
  end.

(** The first line of a buffer: [read.split('\r\n')[0]]. *)
Definition first_line (read : string) : string := hd "" (split_crlf read).

(** ['\r\n'.join(pieces)]. *)
Fixpoint join_crlf (pieces : list string) : string :=
  match pieces with
  | [] => ""
  | [p] => p
  | p :: rest => p ++ CRLF ++ join_crlf rest
  end.

Lemma append_cons (c : ascii) (a b : string) : String c a ++ b = String c (a ++ b).
Proof. reflexivity. Qed.

Lemma lstrip_head (chars s : string) (c : ascii) (t : string) :
  lstrip chars s = String c t -> mem c chars = false.
Proof.
  induction s as [|x s IH]; simpl; [discriminate|].
  destruct (mem x chars) eqn:E; [exact IH|].
  intros H. injection H as <- _. exact E.
Qed.

Lemma lstrip_keeps (chars : string) (c : ascii) (t : string) :
  mem c chars = false -> lstrip chars (String c t) = String c t.
Proof. intros H. simpl. now rewrite H. Qed.

Lemma rstrip_head (chars s : string) (c : ascii) (t : string) :
  rstrip chars s = String c t -> exists t', s = String c t'.
Proof.
  destruct s as [|x s]; simpl; [discriminate|].
  destruct (rstrip chars s) as [|y r].
  - destruct (mem x chars); [discriminate|].
    intros H. injection H as <- _. eauto.
  - intros H. injection H as <- _. eauto.
Qed.

Lemma rstrip_last (chars s : string) (c : ascii) :
  last_char (rstrip chars s) = Some c -> mem c chars = false.
Proof.
  induction s as [|x s IH]; simpl; [discriminate|].
  destruct (rstrip chars s) as [|y r] eqn:E.
  - destruct (mem x chars) eqn:Ex; simpl; [discriminate|].
    intros H. injection H as <-. exact Ex.
  - exact IH.
Qed.

Lemma rstrip_keeps (chars s : string) (c : ascii) :
  last_char s = Some c -> mem c chars = false -> rstrip chars s = s.
Proof.
  induction s as [|x s IH]; [discriminate|].
  destruct s as [|y s'].
  - simpl. intros H. injection H as <-. intros ->. reflexivity.
  - intros Hlast Hc.
    change (last_char (String x (String y s'))) with (last_char (String y s')) in Hlast.
    specialize (IH Hlast Hc).
    change (rstrip chars (String x (String y s')))
      with (match rstrip chars (String y s') with
            | EmptyString => if mem x chars then EmptyString else String x EmptyString
            | r => String x r
            end).
    now rewrite IH.
Qed.

Lemma rstrip_cons (chars : string) (x : ascii) (s : string) :
  rstrip chars (String x s)
  = match rstrip chars s with
    | EmptyString => if mem x chars then EmptyString else String x EmptyString
    | r => String x r
    end.
Proof. reflexivity. Qed.

Lemma rstrip_all (chars tail : string) :
  (forall c, mem c tail = true -> mem c chars = true) ->
  rstrip chars tail = "".
Proof.
  induction tail as [|x tail IH]; intros Hall; [reflexivity|].
  simpl. rewrite IH.
  - rewrite (Hall x); [reflexivity|]. simpl. now rewrite Ascii.eqb_refl.
  - intros c Hc. apply Hall. simpl. rewrite Hc. apply orb_true_r.
Qed.

(** Trailing characters that all belong to [chars] are stripped, after a
    string that does not end in one. *)
Lemma rstrip_append (chars s tail : string) (c : ascii) :
  last_char s = Some c -> mem c chars = false ->
  (forall x, mem x tail = true -> mem x chars = true) ->
  rstrip chars (s ++ tail) = s.
Proof.
  intros Hlast Hc Hall.
  induction s as [|x s IH]; [discriminate|].
  rewrite append_cons.
  destruct s as [|y s'].
  - change ("" ++ tail) with tail. simpl. rewrite (rstrip_all chars tail Hall).
    simpl in Hlast. injection Hlast as ->. now rewrite Hc.
  - change (last_char (String x (String y s'))) with (last_char (String y s')) in Hlast.
    rewrite rstrip_cons, (IH Hlast). reflexivity.
Qed.

Lemma has_crlf_cons (c c' : ascii) (s : string) :
  has_crlf (String c (String c' s))
  = (Ascii.eqb c CR && Ascii.eqb c' LF) || has_crlf (String c' s).
Proof. reflexivity. Qed.

Lemma split_crlf_cons (c c' : ascii) (s : string) :
  split_crlf (String c (String c' s))
  = if Ascii.eqb c CR && Ascii.eqb c' LF
    then "" :: split_crlf s
    else cons_first c (split_crlf (String c' s)).
Proof. reflexivity. Qed.

(** A string without ['\r\n'] is its own single piece. *)
Lemma split_crlf_single (t : string) :
  has_crlf t = false -> split_crlf t = [t].
Proof.
  induction t as [|c t IH]; [reflexivity|].
  destruct t as [|c' t']; [reflexivity|].
  rewrite has_crlf_cons, split_crlf_cons. intros H.
  apply orb_false_elim in H. destruct H as [-> Hrest].
  now rewrite (IH Hrest).
Qed.

Lemma cons_first_app (c : ascii) (init : list string) (t : string) :
  init <> [] -> cons_first c (init ++ [t])%list = (cons_first c init ++ [t])%list.
Proof. destruct init; [contradiction | reflexivity]. Qed.

(** Whatever precedes it, a ['\r\n'] followed by a text [t] free of
    ['\r\n'] makes [t] the last piece of the split. *)
Lemma split_crlf_tail (t : string) :
  has_crlf t = false ->
  forall (n : nat) (b : string),
    (String.length b <= n)%nat ->
    exists init, init <> [] /\ split_crlf (b ++ CRLF ++ t) = (init ++ [t])%list.
Proof.
  intros Ht.
  assert (Hbase : split_crlf (String CR (String LF t)) = ["" ; t]).
  { rewrite split_crlf_cons. simpl. now rewrite (split_crlf_single t Ht). }
  induction n as [|n IH]; intros b Hlen.
  - destruct b; [|simpl in Hlen; lia].
    exists [""]. split; [discriminate | exact Hbase].
  - destruct b as [|c b'].
    + exists [""]. split; [discriminate | exact Hbase].
    + simpl in Hlen. rewrite append_cons. destruct b' as [|c' b''].
      * change ("" ++ CRLF ++ t) with (String CR (String LF t)).
        rewrite split_crlf_cons.
        change (Ascii.eqb CR LF) with false. rewrite andb_false_r, Hbase.
        exists [String c ""]. split; [discriminate | reflexivity].
      * rewrite append_cons, split_crlf_cons.
        destruct (Ascii.eqb c CR && Ascii.eqb c' LF).
        -- destruct (IH b'') as (init & Hne & Hsplit); [simpl in Hlen; lia|].
           rewrite Hsplit. exists ("" :: init). split; [discriminate | reflexivity].
        -- rewrite <- append_cons.
           destruct (IH (String c' b'')) as (init & Hne & Hsplit); [lia|].
           rewrite Hsplit, (cons_first_app c init t Hne).
           exists (cons_first c init). split; [apply cons_first_nonempty | reflexivity].
Qed.

Lemma message_done_last (b t msg : string) :
  has_crlf t = false ->
  message_done (b ++ CRLF ++ t) msg
  = String.eqb (first_line (b ++ CRLF ++ t)) msg && mem "*"%char t.
Proof.
  intros Ht. unfold message_done, first_line.
  destruct (split_crlf_tail t Ht (String.length b) b (le_n _)) as (init & Hne & Hsplit).
  rewrite Hsplit. destruct init as [|first rest]; [contradiction|].
  change ((first :: rest) ++ [t])%list with (first :: (rest ++ [t]))%list.
  cbv beta iota. simpl hd.
  replace (List.last (first :: (rest ++ [t])%list) first) with t; [reflexivity|].
  symmetry. exact (last_last (first :: rest) t first).
Qed.

(** A buffer that ends in ['\r\n'] is never complete. *)
Lemma message_done_terminated (b msg : string) :
  message_done (b ++ CRLF) msg = false.
Proof.
  replace (b ++ CRLF) with (b ++ CRLF ++ "") by reflexivity.
  rewrite (message_done_last b "" msg eq_refl). apply andb_false_r.
Qed.

Lemma message_done_first_line (read msg : string) :
  first_line read <> msg -> message_done read msg = false.
Proof.
  unfold message_done, first_line. intros Hne.
  destruct (split_crlf read) as [|first rest]; [reflexivity|].
  simpl in Hne. apply String.eqb_neq in Hne. now rewrite Hne.
Qed.

Lemma has_crlf_append (s t : string) :
  has_crlf s = true -> has_crlf (s ++ t) = true.
Proof.
  induction s as [|c s IH]; [discriminate|].
  destruct s as [|c' s']; [discriminate|].
  rewrite has_crlf_cons, !append_cons, has_crlf_cons. intros H.
  apply orb_true_iff in H. destruct H as [-> | H]; [reflexivity|].
  rewrite <- append_cons, (IH H). apply orb_true_r.
Qed.

(** Once a buffer holds a ['\r\n'], its first line is settled: nothing
    received later changes it. *)
Lemma first_line_append (s t : string) :
  has_crlf s = true -> first_line (s ++ t) = first_line s.
Proof.
  unfold first_line.
  induction s as [|c s IH]; [discriminate|].
  destruct s as [|c' s']; [discriminate|].
  rewrite has_crlf_cons, !append_cons, !split_crlf_cons. intros H.
  destruct (Ascii.eqb c CR && Ascii.eqb c' LF); [reflexivity|].
  simpl in H. rewrite <- append_cons.
  specialize (IH H).
  pose proof (split_crlf_nonempty (String c' s' ++ t)) as N1.
  pose proof (split_crlf_nonempty (String c' s')) as N2.
  destruct (split_crlf (String c' s' ++ t)); [contradiction|].
  destruct (split_crlf (String c' s')); [contradiction|].
  simpl in *. now rewrite IH.
Qed.

(** ** What [query] can answer *)

(** An answer of the loop is the empty string or a completed buffer,
    stripped. *)
Lemma _loop_read_from_answer (fuel : nat) (msg : string) (start : Z) :
  forall (read : string) (s : sys) (r : string),
    fst (_loop_read_from fuel msg start read s) = Ok r ->
    r = "" \/
    exists buffer,
      message_done buffer msg = true /\
      r = rstrip (CRLF ++ "* ") (lstrip (msg ++ CRLF) buffer).
Proof.
  induction fuel as [|fuel IH]; intros read s r; [discriminate|].
  rewrite _loop_read_from_step.
  destruct (_handle (self s)) as [h|] eqn:Hh.
  2: { rewrite (_loop_read_body_closed s msg read Hh). discriminate. }
  rewrite (_loop_read_body_open s h msg read Hh).
  destruct (rx (env s)) as [|[|data| |reason] rest] eqn:E.
  - destruct (_ >? _); [intros H; injection H as <-; now left | apply IH].
  - destruct (_ >? _); [intros H; injection H as <-; now left | apply IH].
  - destruct (message_done (read ++ data) msg) eqn:Hdone.
    + intros H. injection H as <-. right. exists (read ++ data). now split.
    + destruct (_ >? _); [intros H; injection H as <-; now left | apply IH].
  - discriminate.
  - discriminate.
Qed.

(** Whatever the device sends, an answer of [query] never begins with a
    character of the command, nor with a carriage return or a line feed,
    and never ends in a carriage return, a line feed, an asterisk or a
    space: the two strips see to it, the first one by character set. *)
Theorem query_answer_stripped (s : sys) (msg r : string) :
  fst (query msg s) = Ok r ->
  (forall c t, r = String c t ->
     mem c msg = false /\ c <> CR /\ c <> LF) /\
  (forall c, last_char r = Some c ->
     c <> CR /\ c <> LF /\ c <> "*"%char /\ c <> " "%char).
Proof.
  intros Hrun.
  assert (Hshape : r = "" \/
    exists buffer, message_done buffer msg = true /\
      r = rstrip (CRLF ++ "* ") (lstrip (msg ++ CRLF) buffer)).
  { unfold query, bind at 1 in Hrun.
    destruct (_write (with_cr msg) s) as [[[]| e |] s1]; try discriminate Hrun.
    unfold _loop_read, bind, perf_counter in Hrun.
    exact (_loop_read_from_answer _ _ _ _ _ _ Hrun). }
  destruct Hshape as [-> | (buffer & _ & ->)]; [split; intros; discriminate|].
  split.
  - intros c t Hr.
    destruct (rstrip_head _ _ _ _ Hr) as (t' & Hl).
    apply lstrip_head in Hl. rewrite mem_append in Hl.
    apply orb_false_elim in Hl. destruct Hl as [Hmsg Hcrlf].
    split; [exact Hmsg|]. simpl in Hcrlf.
    apply orb_false_elim in Hcrlf. destruct Hcrlf as [H1 H2].
    apply orb_false_elim in H2. destruct H2 as [H2 _].
    split; intros ->; [now rewrite Ascii.eqb_refl in H1 | now rewrite Ascii.eqb_refl in H2].
  - intros c Hlast. apply rstrip_last in Hlast. simpl in Hlast.
    repeat (apply orb_false_elim in Hlast; destruct Hlast as [?H Hlast]).
    repeat split; intros ->;
      match goal with
      | H : Ascii.eqb ?x ?x = false |- _ => now rewrite Ascii.eqb_refl in H
      end.
Qed.

(** The date query answered with ['done']: what comes back is ['ne'], and
    [n] is indeed no character of the command. *)
Lemma query_answer_stripped_witness :
  mem "n"%char "BoardId Date" = false /\ "n"%char <> CR /\ "n"%char <> LF.
Proof.
  apply (proj1 (query_answer_stripped
                  (Demo.opened [Chunk ("BoardId Date" ++ CRLF); Chunk ("done" ++ CRLF ++ "*")])
                  "BoardId Date" "ne" eq_refl) "n"%char "e" eq_refl).
Defined.

(** ** Buffers that can never complete *)

Section NeverDone.

(** [buffer_ok] holds of the buffers met, [chunk_ok] of the data read;
    together they rule completion out. *)
Variable msg : string.
Variable buffer_ok : string -> Prop.
Variable chunk_ok : string -> Prop.

Hypothesis buffer_grows :
  forall read data, buffer_ok read -> chunk_ok data -> buffer_ok (read ++ data).

Hypothesis not_done :
  forall read data, buffer_ok read -> chunk_ok data ->
                    message_done (read ++ data) msg = false.

(** Every chunk the device will deliver is [chunk_ok]. *)
Definition script_ok (script : list rx_event) : Prop :=
  Forall (fun ev => forall data, ev = Chunk data -> chunk_ok data) script.

Lemma _loop_read_from_never_done (fuel : nat) (start : Z) :
  forall (read : string) (s : sys) (r : string),
    buffer_ok read ->
    script_ok (rx (env s)) ->
    fst (_loop_read_from fuel msg start read s) = Ok r ->
    r = "".
Proof.
  induction fuel as [|fuel IH]; intros read s r Hb Hs; [discriminate|].
  rewrite _loop_read_from_step.
  destruct (_handle (self s)) as [h|] eqn:Hh.
  2: { rewrite (_loop_read_body_closed s msg read Hh). discriminate. }
  rewrite (_loop_read_body_open s h msg read Hh).
  unfold script_ok in Hs.
  destruct (rx (env s)) as [|[|data| |reason] rest] eqn:E.
  - destruct (_ >? _); [intros H; now injection H as <-|].
    apply IH; [exact Hb|]. unfold script_ok. simpl. rewrite E. constructor.
  - destruct (_ >? _); [intros H; now injection H as <-|].
    apply IH; [exact Hb|]. unfold script_ok. simpl. rewrite E. simpl.
    now inversion Hs.
  - assert (Hc : chunk_ok data) by (inversion Hs as [|? ? Hhd ?]; now apply Hhd).
    rewrite (not_done read data Hb Hc).
    destruct (_ >? _); [intros H; now injection H as <-|].
    apply IH; [now apply buffer_grows|]. unfold script_ok. simpl. rewrite E. simpl.
    now inversion Hs.
  - discriminate.
  - discriminate.
Qed.

End NeverDone.

(** A chunk that ends in ['\r\n']. *)
Definition line_terminated (data : string) : Prop :=
  exists body, data = body ++ CRLF.

(** If every read ends in ['\r\n'], as from a device that terminates each
    line, closing line included, [query] never returns an answer: whatever
    the lines hold, it gives the empty string, at the timeout, unless it
    raises. *)
Theorem query_line_terminated_device (s : sys) (msg r : string) :
  script_ok line_terminated (rx (env s)) ->
  fst (query msg s) = Ok r ->
  r = "".
Proof.
  intros Hs Hrun. unfold query, bind at 1 in Hrun.
  destruct (_handle (self s)) as [h|] eqn:Hh.
  2: { rewrite (_write_closed s _ Hh) in Hrun. discriminate. }
  rewrite (_write_open s h _ Hh) in Hrun.
  destruct (_ =? 0); [discriminate|].
  unfold _loop_read, bind, perf_counter in Hrun.
  eapply (_loop_read_from_never_done msg (fun _ => True) line_terminated);
    [ | | | | exact Hrun].
  - trivial.
  - intros read data _ [body ->]. rewrite <- append_assoc.
    apply message_done_terminated.
  - exact I.
  - exact Hs.
Qed.

(** Echo, answer and closing line, each terminated: no answer. *)
Lemma query_line_terminated_device_witness :
  exists r,
    fst (query "status"
           (Demo.opened [Chunk ("status" ++ CRLF); Quiet;
                         Chunk ("done" ++ CRLF); Chunk ("*" ++ CRLF)]))
    = Ok r /\ r = "".
Proof.
  exists "". split; [vm_compute; reflexivity|].
  apply (query_line_terminated_device
           (Demo.opened [Chunk ("status" ++ CRLF); Quiet;
                         Chunk ("done" ++ CRLF); Chunk ("*" ++ CRLF)])
           "status" "").
  - unfold script_ok. simpl.
    repeat (apply List.Forall_cons;
            [intros data H;
             first [discriminate H | injection H as <-; eexists; reflexivity]|]).
    apply List.Forall_nil.
  - vm_compute. reflexivity.
Defined.

(** A buffer whose first line is complete and is not the command. *)
Definition wrong_echo (msg read : string) : Prop :=
  has_crlf read = true /\ first_line read <> msg.

Lemma wrong_echo_grows (msg read data : string) :
  wrong_echo msg read -> wrong_echo msg (read ++ data).
Proof.
  intros [Hc Hf]. split; [now apply has_crlf_append|].
  now rewrite first_line_append.
Qed.

Lemma _loop_read_from_wrong_echo
    (msg data : string) (rest : list rx_event) (start : Z) (quiets : list rx_event) :
  wrong_echo msg data ->
  Forall (fun ev => ev = Quiet) quiets ->
  forall (fuel : nat) (s : sys) (r : string),
    rx (env s) = (quiets ++ Chunk data :: rest)%list ->
    fst (_loop_read_from fuel msg start "" s) = Ok r ->
    r = "".
Proof.
  intros Hbad Hq. induction Hq as [|ev quiets -> Hq IH]; intros fuel s r Hrx;
    (destruct fuel as [|fuel]; [discriminate|]);
    rewrite _loop_read_from_step;
    (destruct (_handle (self s)) as [h|] eqn:Hh;
     [|rewrite (_loop_read_body_closed s msg "" Hh); discriminate]);
    rewrite (_loop_read_body_open s h msg "" Hh), Hrx; simpl app; cbv beta iota.
  - change ("" ++ data) with data.
    rewrite (message_done_first_line data msg (proj2 Hbad)).
    destruct (_ >? _); [intros H; now injection H as <-|].
    apply (_loop_read_from_never_done msg (wrong_echo msg) (fun _ => True)).
    + intros read d Hr _. now apply wrong_echo_grows.
    + intros read d Hr _. apply message_done_first_line.
      now apply (wrong_echo_grows msg read d).
    + exact Hbad.
    + unfold script_ok. apply Forall_forall. trivial.
  - destruct (_ >? _); [intros H; now injection H as <-|].
    apply IH. simpl. now rewrite Hrx.
Qed.

(** If the first data [query] reads opens with a complete line that is not
    the command, for instance the late answer to an earlier command, the
    query is lost: whatever follows, the echo and the answer included, it
    returns the empty string, at the timeout, unless it raises. *)
Theorem query_wrong_first_line
    (s : sys) (msg r data : string) (quiets rest : list rx_event) :
  rx (env s) = (quiets ++ Chunk data :: rest)%list ->
  Forall (fun ev => ev = Quiet) quiets ->
  has_crlf data = true ->
  first_line data <> msg ->
  fst (query msg s) = Ok r ->
  r = "".
Proof.
  intros Hrx Hq Hc Hf Hrun. unfold query, bind at 1 in Hrun.
  destruct (_handle (self s)) as [h|] eqn:Hh.
  2: { rewrite (_write_closed s _ Hh) in Hrun. discriminate. }
  rewrite (_write_open s h _ Hh) in Hrun.
  destruct (_ =? 0); [discriminate|].
  unfold _loop_read, bind, perf_counter in Hrun.
  eapply (_loop_read_from_wrong_echo msg data rest _ quiets (conj Hc Hf) Hq);
    [|exact Hrun].
  exact Hrx.
Qed.

(** A stale ['old' '*'] exchange is pending when ['status'] is queried: the
    full exchange that follows is never recognised. *)
Lemma query_wrong_first_line_witness :
  exists r,
    fst (query "status"
           (Demo.opened [Quiet; Chunk ("old" ++ CRLF ++ "* ");
                         Chunk ("status" ++ CRLF ++ "done" ++ CRLF ++ "* ")]))
    = Ok r /\ r = "".
Proof.
  exists "". split; [vm_compute; reflexivity|].
  apply (query_wrong_first_line
           (Demo.opened [Quiet; Chunk ("old" ++ CRLF ++ "* ");
                         Chunk ("status" ++ CRLF ++ "done" ++ CRLF ++ "* ")])
           "status" "" ("old" ++ CRLF ++ "* ") [Quiet]
           [Chunk ("status" ++ CRLF ++ "done" ++ CRLF ++ "* ")]).
  - reflexivity.
  - repeat constructor.
  - reflexivity.
  - vm_compute. discriminate.
  - vm_compute. reflexivity.
Defined.

(** ** The exchange the loop is written for *)

(** The device's framing: echo, ['\r\n'], the answer, ['\r\n'] and the
    prompt ['* ']. When that arrives in one read, [query] returns the
    answer unaltered, at once and without sleeping, provided the command
    holds no ['\r\n'], the answer does not begin with a character of the
    command (or a carriage return or line feed) and does not end in a
    carriage return, a line feed, an asterisk or a space. The answer may
    span several lines. *)
Theorem query_round_trip
    (s : sys) (h : Z) (msg answer : string) (c z : ascii) (t : string)
    (rest : list rx_event) :
  _handle (self s) = Some h ->
  AotfWrite (dll (env s)) h (Z.of_nat (String.length (with_cr msg))) (with_cr msg) <> 0 ->
  has_crlf msg = false ->
  answer = String c t ->
  mem c (msg ++ CRLF) = false ->
  last_char answer = Some z ->
  mem z (CRLF ++ "* ") = false ->
  rx (env s) = Chunk (msg ++ CRLF ++ answer ++ CRLF ++ "* ") :: rest ->
  query msg s = (Ok answer, popped (sent (with_cr msg) s)).
Proof.
  intros Hh Hw Hno Hans Hc Hlast Hz Hrx.
  assert (Hdone : message_done (msg ++ CRLF ++ answer ++ CRLF ++ "* ") msg = true).
  { replace (msg ++ CRLF ++ answer ++ CRLF ++ "* ")
      with ((msg ++ CRLF ++ answer) ++ CRLF ++ "* ")
      by now rewrite !append_assoc.
    rewrite (message_done_last _ "* " msg eq_refl).
    rewrite !append_assoc. unfold first_line.
    rewrite (split_crlf_echo msg _ Hno). simpl. now rewrite String.eqb_refl. }
  assert (Hstrip : rstrip (CRLF ++ "* ")
                     (lstrip (msg ++ CRLF) (msg ++ CRLF ++ answer ++ CRLF ++ "* "))
                   = answer).
  { rewrite <- (append_assoc msg CRLF), lstrip_append by auto.
    rewrite Hans, append_cons, (lstrip_keeps _ c _ Hc), <- append_cons, <- Hans.
    apply (rstrip_append _ answer _ z Hlast Hz). auto. }
  unfold query, bind at 1. rewrite (_write_open s h _ Hh).
  destruct (Z.eqb_spec (AotfWrite (dll (env s)) h
              (Z.of_nat (String.length (with_cr msg))) (with_cr msg)) 0);
    [contradiction|].
  unfold _loop_read, bind, perf_counter.
  assert (Hfuel : exists fuel, loop_fuel (sent (with_cr msg) s) = S fuel).
  { unfold loop_fuel. rewrite Nat.add_1_r. eauto. }
  destruct Hfuel as [fuel ->].
  rewrite _loop_read_from_step,
    (_loop_read_body_open (sent (with_cr msg) s) h msg "" Hh).
  simpl rx. rewrite Hrx. cbv beta iota.
  change ("" ++ (msg ++ CRLF ++ answer ++ CRLF ++ "* "))
    with (msg ++ CRLF ++ answer ++ CRLF ++ "* ").
  now rewrite Hdone, Hstrip.
Qed.

(** A two-line answer to ['status']. *)
Lemma query_round_trip_witness :
  fst (query "status"
         (Demo.opened [Chunk ("status" ++ CRLF ++ ("1.0" ++ CRLF ++ "2.5") ++ CRLF ++ "* ")]))
  = Ok ("1.0" ++ CRLF ++ "2.5").
Proof.
  rewrite (query_round_trip
             (Demo.opened [Chunk ("status" ++ CRLF ++ ("1.0" ++ CRLF ++ "2.5") ++ CRLF ++ "* ")])
             1 "status" ("1.0" ++ CRLF ++ "2.5") "1"%char "5"%char (".0" ++ CRLF ++ "2.5") []);
    try reflexivity.
  discriminate.
Defined.

(** ** How long [query] can take *)

(** The clock only moves forward in the loop, and it never ends more than
    one sleep past the deadline. *)
Lemma _loop_read_from_clock (fuel : nat) (msg : string) (start : Z) :
  forall (read : string) (s : sys),
    clock (env s) - start <= 1000 * _timeout (self s) ->
    clock (env s) <= clock (env (snd (_loop_read_from fuel msg start read s))) /\
    clock (env (snd (_loop_read_from fuel msg start read s))) - start
    <= 1000 * _timeout (self s) + 100.
Proof.
  induction fuel as [|fuel IH]; intros read s He; [simpl; lia|].
  rewrite _loop_read_from_step.
  destruct (_handle (self s)) as [h|] eqn:Hh.
  2: { rewrite (_loop_read_body_closed s msg read Hh). simpl. lia. }
  rewrite (_loop_read_body_open s h msg read Hh).
  destruct (rx (env s)) as [|[|data| |reason] rest] eqn:E.
  - destruct (Z.gtb_spec (clock (env (slept s)) - start) (1000 * _timeout (self (slept s))))
      as [Hto|Hto].
    + simpl. lia.
    + destruct (IH read (slept s) Hto) as [H1 H2]. simpl in *. lia.
  - destruct (Z.gtb_spec (clock (env (slept (popped s))) - start)
                         (1000 * _timeout (self (slept (popped s))))) as [Hto|Hto].
    + simpl. lia.
    + destruct (IH read (slept (popped s)) Hto) as [H1 H2]. simpl in *. lia.
  - destruct (message_done (read ++ data) msg); [simpl; lia|].
    destruct (Z.gtb_spec (clock (env (popped s)) - start)
                         (1000 * _timeout (self (popped s)))) as [Hto|Hto].
    + simpl. lia.
    + destruct (IH (read ++ data) (popped s) Hto) as [H1 H2]. simpl in *. lia.
  - simpl. lia.
  - simpl. lia.
Qed.

(** Whatever the device sends and whenever, [query] finishes, by returning
    or raising, and by the clock it reads it finishes no later than the
    timeout plus one poll interval after it began. *)
Theorem query_time_bound (s : sys) (msg : string) :
  0 <= _timeout (self s) ->
  fst (query msg s) <> Diverge /\
  0 <= clock (env (snd (query msg s))) - clock (env s)
    <= 1000 * _timeout (self s) + 100.
Proof.
  intros Ht. unfold query, bind at 1 2 3.
  destruct (_handle (self s)) as [h|] eqn:Hh.
  2: { rewrite (_write_closed s _ Hh). simpl. split; [discriminate | lia]. }
  rewrite (_write_open s h _ Hh).
  destruct (_ =? 0); [simpl; split; [discriminate | lia]|].
  split; [apply _loop_read_total|].
  unfold _loop_read, bind, perf_counter.
  destruct (_loop_read_from_clock (loop_fuel (sent (with_cr msg) s)) msg
              (clock (env (sent (with_cr msg) s))) "" (sent (with_cr msg) s))
    as [H1 H2]; simpl in *; lia.
Qed.

(** A device that trickles useless data for a while: the query is over
    within 10100 ms. *)
Lemma query_time_bound_witness :
  0 <= clock (env (snd (query "status"
                          (Demo.opened [Quiet; Chunk "x"; Quiet; Quiet; Chunk "y"]))))
       - 0
    <= 1000 * 10 + 100.
Proof.
  apply (proj2 (query_time_bound
                  (Demo.opened [Quiet; Chunk "x"; Quiet; Quiet; Chunk "y"]) "status"
                  ltac:(simpl; lia))).
Defined.

(** ** Transport failures during [query] *)

(** When the driver refuses the write, [query] fails at once: nothing is
    read and no time passes. When the driver accepts the write and then
    reports a failed read, [query] fails with the same exception, message
    included, so the caller cannot tell the two apart. *)
Theorem query_transport_failures (s : sys) (h : Z) (msg : string) :
  _handle (self s) = Some h ->
  (AotfWrite (dll (env s)) h (Z.of_nat (String.length (with_cr msg))) (with_cr msg) = 0 ->
   query msg s = (Raise TransportWriteError, sent (with_cr msg) s)) /\
  (AotfWrite (dll (env s)) h (Z.of_nat (String.length (with_cr msg))) (with_cr msg) <> 0 ->
   forall rest, rx (env s) = Fault :: rest ->
   query msg s = (Raise TransportWriteError, popped (sent (with_cr msg) s))).
Proof.
  intros Hh. split.
  - intros Hret. unfold query, bind at 1. rewrite (_write_open s h _ Hh), Hret.
    reflexivity.
  - intros Hret rest Hrx. unfold query, bind at 1. rewrite (_write_open s h _ Hh).
    destruct (Z.eqb_spec (AotfWrite (dll (env s)) h
                (Z.of_nat (String.length (with_cr msg))) (with_cr msg)) 0);
      [contradiction|].
    unfold _loop_read, bind, perf_counter.
    assert (Hfuel : exists fuel, loop_fuel (sent (with_cr msg) s) = S fuel).
    { unfold loop_fuel. rewrite Nat.add_1_r. eauto. }
    destruct Hfuel as [fuel ->].
    rewrite _loop_read_from_step,
      (_loop_read_body_open (sent (with_cr msg) s) h msg "" Hh).
    simpl rx. rewrite Hrx. reflexivity.
Qed.

Lemma query_transport_failures_witness :
  fst (query "status" (Demo.opened [Fault])) = Raise TransportWriteError.
Proof.
  rewrite (proj2 (query_transport_failures (Demo.opened [Fault]) 1 "status" eq_refl)
                 ltac:(discriminate) [] eq_refl).
  reflexivity.
Defined.

(** ** What a call leaves alone *)

Section Frame.

(** A relation between the state before and the state after, reflexive
    and transitive, is kept by a computation when every run relates its
    initial state to its final one. *)
Variable R : sys -> sys -> Prop.
Hypothesis R_refl : forall s, R s s.
Hypothesis R_trans : forall a b c, R a b -> R b c -> R a c.

Definition keeps {A} (m : M A) : Prop := forall s, R s (snd (m s)).

Lemma keeps_ret {A} (a : A) : keeps (ret a).
Proof. intros s. apply R_refl. Qed.

Lemma keeps_raise {A} (e : exn) : keeps (@raise A e).
Proof. intros s. apply R_refl. Qed.

Lemma keeps_gets {A} (f : AOTF -> A) : keeps (gets f).
Proof. intros s. apply R_refl. Qed.

Lemma keeps_checked {A} (error : option exn) (result : A) :
  keeps (checked error result).
Proof. destruct error; intros s; apply R_refl. Qed.

Lemma keeps_Polynomial_new (coef : list float) (domain window : float * float) :
  keeps (Polynomial_new coef domain window).
Proof. destruct coef; intros s; apply R_refl. Qed.

Lemma keeps_bind {A B} (m : M A) (k : A -> M B) :
  keeps m -> (forall a, keeps (k a)) -> keeps (bind m k).
Proof.
  intros Hm Hk s. unfold bind. specialize (Hm s).
  destruct (m s) as [[a| e |] s']; simpl in Hm; simpl; [|exact Hm|exact Hm].
  eapply R_trans; [exact Hm | apply Hk].
Qed.

Lemma keeps_if {A} (b : bool) (m1 m2 : M A) :
  keeps m1 -> keeps m2 -> keeps (if b then m1 else m2).
Proof. destruct b; auto. Qed.

(** A relation that looks at the attributes only is kept by whatever
    leaves the attributes alone. *)
Hypothesis R_self_only : forall s s', self s' = self s -> R s s'.

Lemma keeps_modify_env (f : world -> world) : keeps (modify_env f).
Proof. intros s. now apply R_self_only. Qed.

Lemma keeps_dll_open (i : Z) : keeps (Dll.AotfOpen i).
Proof. intros s. now apply R_self_only. Qed.

Lemma keeps_dll_close (h : Z) : keeps (Dll.AotfClose h).
Proof. intros s. now apply R_self_only. Qed.

Lemma keeps_dll_instance (h : Z) : keeps (Dll.AotfGetInstance h).
Proof. intros s. now apply R_self_only. Qed.

Lemma keeps_dll_write (h len : Z) (buffer : string) : keeps (Dll.AotfWrite h len buffer).
Proof. intros s. now apply R_self_only. Qed.

Lemma keeps_loop_read (msg : string) : keeps (_loop_read msg).
Proof.
  intros s. apply R_self_only. unfold _loop_read, bind, perf_counter.
  apply _loop_read_from_self.
Qed.

End Frame.

(** The stored handle is the same; the active calibration is the same. *)
Definition same_handle (s s' : sys) : Prop := _handle (self s') = _handle (self s).

Definition same_calibration (s s' : sys) : Prop :=
  _calibration (self s') = _calibration (self s).

(** The methods that store or clear the handle, and the one that assigns
    the calibration. *)
Definition stores_handle (o : operation) : bool :=
  match o with
  | op_open _ | op_close => true
  | _ => false
  end.

Definition assigns_calibration (o : operation) : bool :=
  match o with
  | op_calibration_set _ => true
  | _ => false
  end.

Lemma same_handle_with_calibration (p : option Polynomial) :
  keeps same_handle (modify_self (with_calibration p)).
Proof. intros s. reflexivity. Qed.

Lemma same_calibration_with_handle (h : option Z) :
  keeps same_calibration (modify_self (with_handle h)).
Proof. intros s. reflexivity. Qed.

Lemma same_handle_refl (s : sys) : same_handle s s.
Proof. reflexivity. Qed.

Lemma same_handle_trans (a b c : sys) :
  same_handle a b -> same_handle b c -> same_handle a c.
Proof. unfold same_handle. congruence. Qed.

Lemma same_handle_self_only (s s' : sys) : self s' = self s -> same_handle s s'.
Proof. unfold same_handle. now intros ->. Qed.

Lemma same_calibration_refl (s : sys) : same_calibration s s.
Proof. reflexivity. Qed.

Lemma same_calibration_trans (a b c : sys) :
  same_calibration a b -> same_calibration b c -> same_calibration a c.
Proof. unfold same_calibration. congruence. Qed.

Lemma same_calibration_self_only (s s' : sys) :
  self s' = self s -> same_calibration s s'.
Proof. unfold same_calibration. now intros ->. Qed.

(** Take a method apart along its binds and branches, for a relation on
    the attributes with the three properties given. *)
Ltac framed Hrefl Htrans Hself :=
  repeat first
    [ apply (keeps_ret _ Hrefl)
    | apply (keeps_raise _ Hrefl)
    | apply (keeps_gets _ Hrefl)
    | apply (keeps_checked _ Hrefl)
    | apply (keeps_Polynomial_new _ Hrefl)
    | apply (keeps_modify_env _ Hself)
    | apply (keeps_dll_open _ Hself)
    | apply (keeps_dll_close _ Hself)
    | apply (keeps_dll_instance _ Hself)
    | apply (keeps_dll_write _ Hself)
    | apply (keeps_loop_read _ Hself)
    | apply same_handle_with_calibration
    | apply same_calibration_with_handle
    | apply keeps_if
    | apply (keeps_bind _ Htrans); [|intros ?]
    | match goal with
      | |- keeps _ (match ?x with _ => _ end) => destruct x
      end ].

Lemma call_same_handle
    (float_str : float -> string) (Polynomial_call : Polynomial -> float -> float)
    (table : gmap string calib_entry) (o : operation) :
  stores_handle o = false ->
  keeps same_handle (call float_str Polynomial_call table o).
Proof.
  intros Ho.
  destruct o; try discriminate Ho; unfold call, returning;
    unfold get_controller_index, get_serial, get_date, reset, query, write, print,
      set_acoustic_frequency, set_acoustic_frequency_MHz, set_acoustic_frequency_Hz,
      calibration_get, calibration_set, set_wavelength, set_amplitude,
      set_amplitude_percent, set_amplitude_int, write, print, _write,
      _check_channel, _check_handle;
    framed same_handle_refl same_handle_trans same_handle_self_only.
Qed.

Lemma call_same_calibration
    (float_str : float -> string) (Polynomial_call : Polynomial -> float -> float)
    (table : gmap string calib_entry) (o : operation) :
  assigns_calibration o = false ->
  keeps same_calibration (call float_str Polynomial_call table o).
Proof.
  intros Ho.
  destruct o; try discriminate Ho; unfold call, returning;
    unfold open, close, get_controller_index, get_serial, get_date, reset, query,
      write, print,
      set_acoustic_frequency, set_acoustic_frequency_MHz, set_acoustic_frequency_Hz,
      calibration_get, set_wavelength, set_amplitude,
      set_amplitude_percent, set_amplitude_int, write, print, _write,
      _check_channel, _check_handle;
    framed same_calibration_refl same_calibration_trans same_calibration_self_only.
Qed.

(** Only [open] and [close] change the stored handle, and only an
    assignment to [calibration] changes the active calibration: every
    other public call, however it ends, leaves them as they were. In
    particular no failure, of a write, of a read or of the wait, costs the
    handle. *)
Theorem call_frame
    (float_str : float -> string) (Polynomial_call : Polynomial -> float -> float)
    (table : gmap string calib_entry) (o : operation) (s : sys) :
  let s' := snd (call float_str Polynomial_call table o s) in
  (stores_handle o = false -> _handle (self s') = _handle (self s)) /\
  (assigns_calibration o = false -> _calibration (self s') = _calibration (self s)).
Proof.
  intros s'. subst s'. split; intros Ho.
  - now apply call_same_handle.
  - now apply call_same_calibration.
Qed.

(** A timed-out query keeps the handle; so does a refused [close]. *)
Lemma call_frame_witness :
  _handle (self (snd (call Demo.exact_decimal_str Demo.horner_call Demo.table
                           (op_query "status") (Demo.opened []))))
  = Some 1.
Proof.
  apply (proj1 (call_frame Demo.exact_decimal_str Demo.horner_call Demo.table
                  (op_query "status") (Demo.opened []))).
  reflexivity.
Defined.

(** No public call clears the active calibration: once one is active, one
    stays active, through [close] and a later [open] as well. *)
Theorem calibration_never_cleared
    (float_str : float -> string) (Polynomial_call : Polynomial -> float -> float)
    (table : gmap string calib_entry) (o : operation) (s : sys) :
  is_Some (_calibration (self s)) ->
  is_Some (_calibration (self (snd (call float_str Polynomial_call table o s)))).
Proof.
  intros Hsome.
  destruct (assigns_calibration o) eqn:Ho.
  - destruct o; try discriminate Ho. unfold call, returning, bind, calibration_set.
    run_monad.
    destruct (bool_decide _); [|exact Hsome].
    destruct (table !! calibration_id) as [e|]; simpl; [|exact Hsome].
    destruct (coeffs e); simpl; [exact Hsome | eauto].
  - now rewrite (call_same_calibration float_str Polynomial_call table o Ho s).
Qed.

Lemma calibration_never_cleared_witness :
  is_Some (_calibration (self (snd (call Demo.exact_decimal_str Demo.horner_call
                                         Demo.table op_close Demo.calibrated)))).
Proof.
  apply (calibration_never_cleared Demo.exact_decimal_str Demo.horner_call Demo.table
           op_close Demo.calibrated).
  eexists. reflexivity.
Defined.

(** ** Fire and forget *)

(** Nothing was read and no time passed. *)
Definition untouched_receive (s s' : sys) : Prop :=
  rx (env s') = rx (env s) /\ clock (env s') = clock (env s).

(** The methods that wait for an answer. *)
Definition waits_for_answer (o : operation) : bool :=
  match o with
  | op_query _ | op_get_serial | op_get_date => true
  | _ => false
  end.

Lemma untouched_receive_refl (s : sys) : untouched_receive s s.
Proof. split; reflexivity. Qed.

Lemma untouched_receive_trans (a b c : sys) :
  untouched_receive a b -> untouched_receive b c -> untouched_receive a c.
Proof. intros [H1 H2] [K1 K2]. split; congruence. Qed.

Lemma untouched_print (msg : string) : keeps untouched_receive (print msg).
Proof. intros s. split; reflexivity. Qed.

Lemma untouched_modify_self (f : AOTF -> AOTF) :
  keeps untouched_receive (modify_self f).
Proof. intros s. split; reflexivity. Qed.

Lemma untouched_dll_write (h len : Z) (buffer : string) :
  keeps untouched_receive (Dll.AotfWrite h len buffer).
Proof. intros s. split; reflexivity. Qed.

Lemma untouched_dll_open (i : Z) : keeps untouched_receive (Dll.AotfOpen i).
Proof. intros s. split; reflexivity. Qed.

Lemma untouched_dll_close (h : Z) : keeps untouched_receive (Dll.AotfClose h).
Proof. intros s. split; reflexivity. Qed.

Lemma untouched_dll_instance (h : Z) :
  keeps untouched_receive (Dll.AotfGetInstance h).
Proof. intros s. split; reflexivity. Qed.

Ltac hushed :=
  repeat first
    [ apply (keeps_ret _ untouched_receive_refl)
    | apply (keeps_raise _ untouched_receive_refl)
    | apply (keeps_gets _ untouched_receive_refl)
    | apply (keeps_checked _ untouched_receive_refl)
    | apply (keeps_Polynomial_new _ untouched_receive_refl)
    | apply untouched_print
    | apply untouched_modify_self
    | apply untouched_dll_write
    | apply untouched_dll_open
    | apply untouched_dll_close
    | apply untouched_dll_instance
    | apply keeps_if
    | apply (keeps_bind _ untouched_receive_trans); [|intros ?]
    | match goal with
      | |- keeps _ (match ?x with _ => _ end) => destruct x
      end ].

(** Apart from [query], [get_serial] and [get_date], no public call reads
    from the device or waits: whatever is pending on the receive side is
    still pending afterwards, and the clock has not moved. The setters do
    not look for a reply to what they send. *)
Theorem call_never_reads
    (float_str : float -> string) (Polynomial_call : Polynomial -> float -> float)
    (table : gmap string calib_entry) (o : operation) (s : sys) :
  waits_for_answer o = false ->
  rx (env (snd (call float_str Polynomial_call table o s))) = rx (env s) /\
  clock (env (snd (call float_str Polynomial_call table o s))) = clock (env s).
Proof.
  intros Ho.
  change (untouched_receive s (snd (call float_str Polynomial_call table o s))).
  revert s. change (keeps untouched_receive (call float_str Polynomial_call table o)).
  destruct o; try discriminate Ho; unfold call, returning;
    unfold open, close, get_controller_index, reset,
      set_acoustic_frequency, set_acoustic_frequency_MHz, set_acoustic_frequency_Hz,
      calibration_get, calibration_set, set_wavelength, set_amplitude,
      set_amplitude_percent, set_amplitude_int, write, _write,
      _check_channel, _check_handle;
    hushed.
Qed.

(** An answer that is already waiting when an amplitude is set is still
    waiting afterwards. *)
Lemma call_never_reads_witness :
  rx (env (snd (call Demo.exact_decimal_str Demo.horner_call Demo.table
                     (op_set_amplitude_int (PyInt 10) 0)
                     (Demo.opened [Chunk "* "]))))
  = [Chunk "* "].
Proof.
  apply (proj1 (call_never_reads Demo.exact_decimal_str Demo.horner_call Demo.table
                  (op_set_amplitude_int (PyInt 10) 0) (Demo.opened [Chunk "* "])
                  eq_refl)).
Defined.

(** ** The exceptions a caller has to expect *)

(** The failures of the handle guard, of the driver's write and read
    (one message for both), of [close] and of [open]. *)
Definition io_error (e : exn) : Prop :=
  e = NotOpenError \/ e = TransportWriteError \/ e = DeviceCloseError \/
  exists controller_index, e = DeviceOpenError controller_index.

(** What a method can raise besides: numpy's refusal of an entry without
    coefficients, from the calibration assignment; the overflow of the
    scaling, from the percent setters; an answer that is not UTF-8, from
    the methods that read one. *)
Definition other_error (o : operation) (e : exn) : Prop :=
  match o with
  | op_calibration_set _ => e = EmptyCoefficientsError
  | op_set_amplitude_percent _ _ | op_set_amplitude _ _ => e = QuotientTooLargeError
  | op_query _ | op_get_serial | op_get_date =>
      exists reason, e = UnicodeDecodeError reason
  | _ => False
  end.

Section Raises.

Variable table : gmap string calib_entry.

(** What may be raised besides an [io_error]. *)
Variable extra : exn -> Prop.

(** On a configured object, [m] raises nothing but an [io_error] or an
    [extra] one. *)
Definition raises_expected {A} (m : M A) : Prop :=
  forall s, configured table (self s) ->
            forall e, fst (m s) = Raise e -> io_error e \/ extra e.

Lemma raises_ret {A} (a : A) : raises_expected (ret a).
Proof. intros s _ e H. discriminate H. Qed.

Lemma raises_gets {A} (f : AOTF -> A) : raises_expected (gets f).
Proof. intros s _ e H. discriminate H. Qed.

Lemma raises_modify_env (f : world -> world) : raises_expected (modify_env f).
Proof. intros s _ e H. discriminate H. Qed.

Lemma raises_modify_self (f : AOTF -> AOTF) : raises_expected (modify_self f).
Proof. intros s _ e H. discriminate H. Qed.

Lemma raises_raise {A} (e : exn) :
  io_error e \/ extra e -> raises_expected (@raise A e).
Proof. intros He s _ e' H. injection H as <-. exact He. Qed.

Lemma raises_dll_open (i : Z) : raises_expected (Dll.AotfOpen i).
Proof. intros s _ e H. discriminate H. Qed.

Lemma raises_dll_close (h : Z) : raises_expected (Dll.AotfClose h).
Proof. intros s _ e H. discriminate H. Qed.

Lemma raises_dll_instance (h : Z) : raises_expected (Dll.AotfGetInstance h).
Proof. intros s _ e H. discriminate H. Qed.

Lemma raises_dll_write (h len : Z) (buffer : string) :
  raises_expected (Dll.AotfWrite h len buffer).
Proof. intros s _ e H. discriminate H. Qed.

Lemma raises_if {A} (b : bool) (m1 m2 : M A) :
  raises_expected m1 -> raises_expected m2 -> raises_expected (if b then m1 else m2).
Proof. destruct b; auto. Qed.

Lemma raises_bind {A B} (m : M A) (k : A -> M B) :
  well_behaved m -> raises_expected m -> (forall a, raises_expected (k a)) ->
  raises_expected (bind m k).
Proof.
  intros Hwb Hm Hk s Hcfg e. unfold bind.
  specialize (Hm s Hcfg). destruct (Hwb s) as [_ (K1 & K2 & K3 & K4)].
  destruct (m s) as [[a| e' |] s'] eqn:E; simpl in *.
  - apply Hk. destruct Hcfg as (H1 & H2 & H3 & H4). repeat split; congruence.
  - intros H. injection H as <-. now apply Hm.
  - discriminate.
Qed.

(** The channel test raises nothing on a configured object. *)
Lemma raises_check_channel (c : Z) : raises_expected (_check_channel c).
Proof.
  intros s (Hn & _) e. rewrite _check_channel_passes by lia. discriminate.
Qed.

(** An assignment to [calibration] raises no [KeyError]: a key that
    passes the membership test is in the table. What it can raise is
    numpy's refusal. *)
Lemma raises_calibration_set (id : string) :
  extra EmptyCoefficientsError -> raises_expected (calibration_set table id).
Proof.
  intros Hextra s (_ & Hids & _) e.
  destruct (calibration_set_no_driver table s id Hids) as [(a' & -> & _) | ->].
  - discriminate.
  - intros H. injection H as <-. now right.
Qed.

Lemma _loop_read_from_raises (fuel : nat) (msg : string) (start : Z) :
  (forall reason, extra (UnicodeDecodeError reason)) ->
  forall (read : string) (s : sys) (e : exn),
    fst (_loop_read_from fuel msg start read s) = Raise e -> io_error e \/ extra e.
Proof.
  intros Hextra.
  induction fuel as [|fuel IH]; intros read s e; [discriminate|].
  rewrite _loop_read_from_step.
  destruct (_handle (self s)) as [h|] eqn:Hh.
  2: { rewrite (_loop_read_body_closed s msg read Hh).
       intros H. injection H as <-. left. now left. }
  rewrite (_loop_read_body_open s h msg read Hh).
  destruct (rx (env s)) as [|[|data| |reason] rest] eqn:E.
  - destruct (_ >? _); [discriminate | apply IH].
  - destruct (_ >? _); [discriminate | apply IH].
  - destruct (message_done (read ++ data) msg); [discriminate|].
    destruct (_ >? _); [discriminate | apply IH].
  - intros H. injection H as <-. left. right. now left.
  - intros H. injection H as <-. right. apply Hextra.
Qed.

Lemma raises_loop_read (msg : string) :
  (forall reason, extra (UnicodeDecodeError reason)) ->
  raises_expected (_loop_read msg).
Proof.
  intros Hextra s _ e. unfold _loop_read, bind, perf_counter.
  now apply _loop_read_from_raises.
Qed.

End Raises.

Ltac raising :=
  repeat first
    [ apply raises_ret
    | apply raises_gets
    | apply raises_modify_env
    | apply raises_modify_self
    | apply raises_dll_open
    | apply raises_dll_close
    | apply raises_dll_instance
    | apply raises_dll_write
    | apply raises_check_channel
    | apply raises_calibration_set; reflexivity
    | apply raises_loop_read; intros ?; simpl; solve [eauto]
    | apply raises_raise; left; unfold io_error; solve [eauto 6]
    | apply raises_if
    | apply raises_bind; [solve [behaved] | |intros ?]
    | match goal with
      | |- raises_expected _ _ (match ?x with _ => _ end) => destruct x
      end ].

Lemma raises_set_amplitude_int
    (table : gmap string calib_entry) (extra : exn -> Prop)
    (float_str : float -> string) (x : pynum) (c : Z) :
  raises_expected table extra (set_amplitude_int float_str x c).
Proof.
  unfold set_amplitude_int, write, print; unfold _write; unfold _check_handle.
  raising.
Qed.

(** With the amplitude maximum [16383] the scaling can fail in one way
    only: two ints whose quotient is too large for a float. *)
Lemma scaled_error_configured (x : pynum) (e : exn) :
  scaled 16383 x = inl e -> e = QuotientTooLargeError.
Proof.
  unfold scaled, py_mul_error, py_truediv_error. destruct x as [z|f]; simpl.
  - destruct (PrimFloat.is_infinity (int_truediv (16383 * z) 100));
      intros H; now inversion H.
  - change (int_too_large 16383) with false. change (int_too_large 100) with false.
    discriminate.
Qed.

Lemma raises_set_amplitude_percent
    (table : gmap string calib_entry) (extra : exn -> Prop)
    (float_str : float -> string) (x : pynum) (c : Z) :
  extra QuotientTooLargeError ->
  raises_expected table extra (set_amplitude_percent float_str x c).
Proof.
  intros Hextra s Hcfg e. rewrite set_amplitude_percent_run.
  destruct Hcfg as (Hn & Hids & Ht & Hmax). rewrite Hmax.
  destruct (scaled 16383 x) as [e'|y] eqn:Hscaled.
  - intros H. injection H as <-.
    rewrite (scaled_error_configured x e' Hscaled). now right.
  - apply (raises_set_amplitude_int table extra float_str y c s). now repeat split.
Qed.

(** On a configured object a public call raises nothing but the [IOError]
    of the handle guard, of a failed write or read, of [close] or of
    [open], and, each from its own methods only, numpy's [ValueError] for
    an entry without coefficients, the [OverflowError] of the percent
    scaling and the [UnicodeDecodeError] of an answer that is not UTF-8.
    The [ValueError] of the channel test is never raised, whatever the
    channel, and neither is an [IndexError] or a [KeyError]. The
    controller index and the channel are ints the driver can take. *)
Theorem call_expected_errors
    (float_str : float -> string) (Polynomial_call : Polynomial -> float -> float)
    (table : gmap string calib_entry) (o : operation) (s : sys) (e : exn) :
  configured table (self s) ->
  plain_arguments o ->
  fst (call float_str Polynomial_call table o s) = Raise e ->
  (io_error e \/ other_error o e) /\
  (forall n, e <> InvalidChannelError n) /\
  (forall msg, e <> IndexError msg) /\
  (forall key, e <> KeyError key).
Proof.
  intros Hcfg _ Hraise.
  assert (He : io_error e \/ other_error o e).
  { revert s Hcfg e Hraise.
    change (raises_expected table (other_error o)
                            (call float_str Polynomial_call table o)).
    destruct o; unfold call, returning;
      unfold open, close, get_controller_index, get_serial, get_date, reset,
        calibration_get, set_wavelength, set_amplitude, set_acoustic_frequency;
      unfold set_acoustic_frequency_MHz, set_acoustic_frequency_Hz;
      unfold set_amplitude_int, query;
      unfold write, print; unfold _write; unfold _check_handle;
      try (apply raises_bind;
           [solve [behaved] | apply raises_set_amplitude_percent; reflexivity
            | intros ?]);
      raising. }
  split; [exact He|].
  assert (Hio : io_error e -> exists msg, e = IOError msg).
  { intros [-> | [-> | [-> | [i ->]]]]; eexists; reflexivity. }
  assert (Hkind : (exists msg, e = IOError msg) \/ e = EmptyCoefficientsError \/
                  e = QuotientTooLargeError \/ exists reason, e = UnicodeDecodeError reason).
  { destruct He as [He | He]; [left; now apply Hio|].
    destruct o; simpl in He; try contradiction; auto. }
  repeat split; intros x ->;
    destruct Hkind as [[m H] | [H | [H | [m H]]]]; discriminate H.
Qed.

(** Channel 99 on a closed device: the failure is the handle guard's. An
    answer that is not UTF-8: the failure is the decoder's. *)
Lemma call_expected_errors_witness :
  (io_error NotOpenError
   \/ other_error (op_set_acoustic_frequency_MHz 80%float 99) NotOpenError) /\
  (io_error (UnicodeDecodeError "invalid start byte")
   \/ other_error op_get_serial (UnicodeDecodeError "invalid start byte")).
Proof.
  split.
  - apply (call_expected_errors Demo.exact_decimal_str Demo.horner_call Demo.table
             (op_set_acoustic_frequency_MHz 80%float 99) (Demo.fresh []) NotOpenError
             (init_configured Demo.table) ltac:(unfold plain_arguments, c_int; lia)
             eq_refl).
  - apply (call_expected_errors Demo.exact_decimal_str Demo.horner_call Demo.table
             op_get_serial (Demo.opened [Garbled "invalid start byte"])
             (UnicodeDecodeError "invalid start byte")
             (init_configured Demo.table) I eq_refl).
Defined.

(** ** Amplitude in percent *)

(** On an open device, [set_amplitude_percent] with percent [p], on a
    valid channel, raises
    what the scaling [16383 * p / 100] raises, the state being as it was.
    Otherwise the scaled value is a float [f], also when the quotient is a
    whole number, and the text of that float is what goes out: it does
    when [0 <= f <= 16383], and when [f] is not a number; for any other
    [f] the call does nothing. *)
Theorem set_amplitude_percent_open
    (float_str : float -> string) (s : sys) (h : Z) (p : pynum) (c : Z) :
  0 <= c < 8 ->
  _nchannels (self s) = 8 ->
  _amplitude_int_max (self s) = 16383 ->
  _handle (self s) = Some h ->
  let r := set_amplitude_percent float_str p c s in
  (forall e, scaled 16383 p = inl e -> r = (Raise e, s)) /\
  (forall y, scaled 16383 p = inr y ->
   exists f, y = PyFloat f /\
   (PrimFloat.is_nan f = true \/
    (PrimFloat.leb 0%float f = true /\ PrimFloat.leb f 16383%float = true) ->
    tx (env (snd r))
    = (tx (env s)
         ++ [with_cr ("Dds Amplitude " ++ str_int c ++ " " ++ float_str f)%string])%list) /\
   (PrimFloat.is_nan f = false ->
    PrimFloat.leb 0%float f && PrimFloat.leb f 16383%float = false ->
    r = (Ok tt, s))).
Proof.
  intros _ Hn Hmax Hh r.
  assert (Hr : r = match scaled 16383 p with
                   | inl e => (Raise e, s)
                   | inr y => set_amplitude_int float_str y c s
                   end).
  { subst r. now rewrite set_amplitude_percent_run, Hmax. }
  split.
  { intros e He. now rewrite Hr, He. }
  intros y Hy. rewrite Hr, Hy.
  assert (Hfloat : exists f, y = PyFloat f).
  { unfold scaled in Hy. destruct (py_mul_error _ p); [discriminate|].
    destruct (py_truediv_error _ 100); [discriminate|].
    injection Hy as <-. destruct p; eexists; reflexivity. }
  destruct Hfloat as [f ->]. exists f. split; [reflexivity|].
  rewrite (set_amplitude_int_run float_str s (PyFloat f) c Hn), Hmax.
  rewrite contains_float_range.
  split.
  - intros Hin.
    assert (Htest : PrimFloat.is_nan f
                    || (PrimFloat.leb 0%float f && PrimFloat.leb f 16383%float) = true).
    { destruct Hin as [-> | [-> ->]]; [reflexivity | apply orb_true_r]. }
    rewrite Htest. now rewrite (write_open s h _ Hh).
  - intros -> ->. reflexivity.
Qed.

(** Full scale: 100 percent goes out as [16383.0]; 101 percent does not
    go out, and neither does [2^63] percent. *)
Lemma set_amplitude_percent_open_witness :
  tx (env (snd (set_amplitude_percent Demo.exact_decimal_str (PyInt 100) 0 (Demo.opened []))))
  = [with_cr "Dds Amplitude 0 16383.0"] /\
  set_amplitude_percent Demo.exact_decimal_str (PyInt 101) 0 (Demo.opened [])
  = (Ok tt, Demo.opened []) /\
  set_amplitude_percent Demo.exact_decimal_str (PyInt (2 ^ 63)) 0 (Demo.opened [])
  = (Ok tt, Demo.opened []).
Proof.
  split; [|split].
  - destruct (proj2 (set_amplitude_percent_open Demo.exact_decimal_str (Demo.opened []) 1
                       (PyInt 100) 0 ltac:(lia) eq_refl eq_refl eq_refl)
                    _ eq_refl)
      as (f & Hf & Hin & _).
    injection Hf as <-. apply Hin. right. split; reflexivity.
  - destruct (proj2 (set_amplitude_percent_open Demo.exact_decimal_str (Demo.opened []) 1
                       (PyInt 101) 0 ltac:(lia) eq_refl eq_refl eq_refl)
                    _ eq_refl)
      as (f & Hf & _ & Hout).
    injection Hf as <-. apply Hout; reflexivity.
  - destruct (proj2 (set_amplitude_percent_open Demo.exact_decimal_str (Demo.opened []) 1
                       (PyInt (2 ^ 63)) 0 ltac:(lia) eq_refl eq_refl eq_refl)
                    _ eq_refl)
      as (f & Hf & _ & Hout).
    injection Hf as <-. apply Hout; reflexivity.
Defined.

(** ** Splitting loses nothing *)

Lemma join_cons_first (c : ascii) (l : list string) :
  l <> [] -> join_crlf (cons_first c l) = String c (join_crlf l).
Proof. destruct l as [|p [|q l]]; [contradiction | reflexivity | reflexivity]. Qed.

Lemma join_empty_first (l : list string) :
  l <> [] -> join_crlf ("" :: l) = CRLF ++ join_crlf l.
Proof. destruct l; [contradiction | reflexivity]. Qed.

Lemma join_split_bounded (n : nat) :
  forall s, (String.length s <= n)%nat -> join_crlf (split_crlf s) = s.
Proof.
  induction n as [|n IH]; intros s Hlen.
  - destruct s; [reflexivity | simpl in Hlen; lia].
  - destruct s as [|c [|c' s'']]; [reflexivity | reflexivity |].
    simpl in Hlen. rewrite split_crlf_cons.
    destruct (Ascii.eqb c CR && Ascii.eqb c' LF) eqn:E.
    + apply andb_true_iff in E. destruct E as [Ec Ec'].
      apply Ascii.eqb_eq in Ec, Ec'. subst c c'.
      rewrite (join_empty_first _ (split_crlf_nonempty s'')), IH by lia.
      reflexivity.
    + rewrite (join_cons_first c _ (split_crlf_nonempty (String c' s''))).
      rewrite IH by (simpl; lia). reflexivity.
Qed.

(** The split [_check_message_done] works on loses nothing of the buffer:
    joining the pieces with ['\r\n'] gives the buffer back, so the first
    and the last piece are the buffer's first and last line. *)
Theorem split_crlf_round_trip (read : string) :
  join_crlf (split_crlf read) = read.
Proof. apply (join_split_bounded (String.length read)). apply le_n. Qed.

(** ** Completion is judged on what has been read so far *)

(** As soon as a read leaves the buffer with the echo as first line and an
    asterisk anywhere in its last line, [query] returns, with that last
    line stripped as if it were the whole answer: an asterisk inside an
    answer line ends the exchange when a read happens to stop in that
    line. What the device sends afterwards is not read; it stays pending
    for whoever reads next. *)
Theorem query_stops_at_first_asterisk
    (s : sys) (h : Z) (msg part : string) (rest : list rx_event) :
  _handle (self s) = Some h ->
  AotfWrite (dll (env s)) h (Z.of_nat (String.length (with_cr msg))) (with_cr msg) <> 0 ->
  has_crlf msg = false ->
  has_crlf part = false ->
  mem "*"%char part = true ->
  rx (env s) = Chunk (msg ++ CRLF ++ part) :: rest ->
  query msg s
  = (Ok (rstrip (CRLF ++ "* ") (lstrip (msg ++ CRLF) part)),
     popped (sent (with_cr msg) s)) /\
  rx (env (snd (query msg s))) = rest.
Proof.
  intros Hh Hw Hno Hpart Hstar Hrx.
  assert (Hdone : message_done (msg ++ CRLF ++ part) msg = true).
  { rewrite (message_done_last msg part msg Hpart), Hstar. unfold first_line.
    rewrite (split_crlf_echo msg part Hno). simpl. now rewrite String.eqb_refl. }
  assert (Hrun : query msg s
    = (Ok (rstrip (CRLF ++ "* ") (lstrip (msg ++ CRLF) part)),
       popped (sent (with_cr msg) s))).
  { unfold query, bind at 1. rewrite (_write_open s h _ Hh).
    destruct (Z.eqb_spec (AotfWrite (dll (env s)) h
                (Z.of_nat (String.length (with_cr msg))) (with_cr msg)) 0);
      [contradiction|].
    unfold _loop_read, bind, perf_counter.
    assert (Hfuel : exists fuel, loop_fuel (sent (with_cr msg) s) = S fuel).
    { unfold loop_fuel. rewrite Nat.add_1_r. eauto. }
    destruct Hfuel as [fuel ->].
    rewrite _loop_read_from_step,
      (_loop_read_body_open (sent (with_cr msg) s) h msg "" Hh).
    simpl rx. rewrite Hrx. cbv beta iota.
    change ("" ++ (msg ++ CRLF ++ part)) with (msg ++ CRLF ++ part).
    rewrite Hdone. rewrite <- (append_assoc msg CRLF part), lstrip_append by auto.
    reflexivity. }
  split; [exact Hrun|]. rewrite Hrun. simpl. now rewrite Hrx.
Qed.

(** The answer ['gain*2' '\r\n' 'ok'] read in two pieces: the query
    returns ['gain*2'] and leaves the second piece unread. *)
Lemma query_stops_at_first_asterisk_witness :
  fst (query "status"
         (Demo.opened [Chunk ("status" ++ CRLF ++ "gain*2");
                       Chunk (CRLF ++ "ok" ++ CRLF ++ "* ")]))
  = Ok "gain*2" /\
  rx (env (snd (query "status"
                  (Demo.opened [Chunk ("status" ++ CRLF ++ "gain*2");
                                Chunk (CRLF ++ "ok" ++ CRLF ++ "* ")]))))
  = [Chunk (CRLF ++ "ok" ++ CRLF ++ "* ")].
Proof.
  destruct (query_stops_at_first_asterisk
              (Demo.opened [Chunk ("status" ++ CRLF ++ "gain*2");
                            Chunk (CRLF ++ "ok" ++ CRLF ++ "* ")])
              1 "status" "gain*2" [Chunk (CRLF ++ "ok" ++ CRLF ++ "* ")]
              eq_refl ltac:(discriminate) eq_refl eq_refl eq_refl eq_refl)
    as [Hrun Hrx].
  split; [rewrite Hrun; reflexivity | exact Hrx].
Defined.
